(** * env-guard: the [guard] function of index.js

    A shallow embedding of [guard(schema)], the single function of the
    package, together with the parts of JavaScript and of the Node.js
    process it relies on:

    - primitive JavaScript values, [Number(...)] on them (with the
      StringToNumber grammar on IEEE binary64), [===], [== null] and
      [Array.prototype.includes] (SameValueZero);
    - plain objects as insertion-ordered property lists with the
      [for ... in] enumeration order;
    - the process: [process.env] as a finite map from names to strings,
      the console as the list of lines written so far, and
      [process.exit] as an abrupt completion.

    Scope of the model.  Schema values ([default], the members of
    [oneOf]) range over the primitive values undefined, null, booleans,
    numbers and strings; with these no statement of the [try] block can
    throw, so the [catch] clause is only reached through a missing rule
    object.  Strings are sequences of bytes (UTF-8).  A schema key is an
    environment variable name that does not also name a member of
    [Object.prototype]. *)

From Stdlib Require Import ZArith String Ascii List Bool Lia.
From Stdlib Require Import Floats.SpecFloat.
From Stdlib Require Import Sorting.Sorted.
From Stdlib Require Import DecimalString DecimalN DecimalPos.
From stdpp Require Import gmap strings list fin_maps.
Import ListNotations.

Local Open Scope string_scope.
Local Open Scope Z_scope.
Local Open Scope list_scope.

(** ** Numbers *)

(** JavaScript numbers are IEEE 754 binary64 values; [spec_float] carries
    them without a NaN payload, as the language does.  Finite numbers are
    kept in the normal form that [binary_normalize 53 1024] produces (the
    form of [number_of_Z] and of every number read from a string), on
    which [SFeqb] is numeric equality. *)
Definition number := spec_float.

Definition prec : Z := 53.
Definition emax : Z := 1024.

(** The number denoted by the integer [z], rounded to nearest, ties to
    even. *)
Definition number_of_Z (z : Z) : number := binary_normalize prec emax z 0 false.

(** [isNaN(num)] for an argument that already is a number. *)
Definition isNaN (num : number) : bool :=
  match num with
  | S754_nan => true
  | _ => false
  end.

Definition isFinite (num : number) : bool :=
  match num with
  | S754_nan | S754_infinity _ => false
  | _ => true
  end.

(** ** StringToNumber *)

Module StringToNumber.

Definition bytes (codes : list Z) : list ascii :=
  map (fun c => ascii_of_N (Z.to_N c)) codes.

(** StrWhiteSpaceChar: WhiteSpace and LineTerminator, each code point
    in its UTF-8 encoding.  TAB, LF, VT, FF, CR, SP, U+00A0, U+1680,
    U+2000 to U+200A, U+2028, U+2029, U+202F, U+205F, U+3000, U+FEFF. *)
Definition StrWhiteSpaceChar : list (list ascii) :=
  map bytes
    [ [9]; [10]; [11]; [12]; [13]; [32]; [194; 160]; [225; 154; 128];
      [226; 128; 128]; [226; 128; 129]; [226; 128; 130]; [226; 128; 131];
      [226; 128; 132]; [226; 128; 133]; [226; 128; 134]; [226; 128; 135];
      [226; 128; 136]; [226; 128; 137]; [226; 128; 138];
      [226; 128; 168]; [226; 128; 169]; [226; 128; 175];
      [226; 129; 159]; [227; 128; 128]; [239; 187; 191] ].

Fixpoint strip_prefix (p s : list ascii) : option (list ascii) :=
  match p, s with
  | [], _ => Some s
  | a :: p', b :: s' => if Ascii.eqb a b then strip_prefix p' s' else None
  | _ :: _, [] => None
  end.

Definition strip_any (ps : list (list ascii)) (s : list ascii)
  : option (list ascii) :=
  fold_right
    (fun p rest => match strip_prefix p s with
                   | Some r => Some r
                   | None => rest
                   end)
    None ps.

(** StrWhiteSpace_opt: the longest run of white space is dropped.  One
    unit of fuel per byte of input is enough. *)
Fixpoint skip_white_space (fuel : nat) (s : list ascii) : list ascii :=
  match fuel with
  | O => s
  | S fuel' =>
      match strip_any StrWhiteSpaceChar s with
      | Some r => skip_white_space fuel' r
      | None => s
      end
  end.

Definition StrWhiteSpace_opt (s : list ascii) : list ascii :=
  skip_white_space (List.length s) s.

Definition digit_value (c : ascii) : option Z :=
  let n := Z.of_N (N_of_ascii c) in
  if (48 <=? n) && (n <=? 57) then Some (n - 48)
  else if (97 <=? n) && (n <=? 102) then Some (n - 87)
  else if (65 <=? n) && (n <=? 70) then Some (n - 55)
  else None.

Definition digit_in (radix : Z) (c : ascii) : option Z :=
  match digit_value c with
  | Some d => if d <? radix then Some d else None
  | None => None
  end.

(** The longest prefix of digits of the radix: its value on top of
    [acc], the number of digits read on top of [count], and the rest. *)
Fixpoint read_digits (radix acc count : Z) (s : list ascii)
  : Z * Z * list ascii :=
  match s with
  | c :: s' =>
      match digit_in radix c with
      | Some d => read_digits radix (acc * radix + d) (count + 1) s'
      | None => (acc, count, s)
      end
  | [] => (acc, count, s)
  end.

(** The binary64 value nearest to [m * 10 ^ e10], for [0 <= m]. *)
Definition decimal_value (neg : bool) (m e10 : Z) : number :=
  match m with
  | Z0 => S754_zero neg
  | Zpos p =>
      if 0 <=? e10
      then binary_round prec emax neg (p * Z.to_pos (10 ^ e10)) 0
      else SFdiv prec emax (S754_finite neg p 0)
                 (S754_finite false (Z.to_pos (10 ^ (- e10))) 0)
  | Zneg _ => S754_nan
  end.

Definition ExponentPart (s : list ascii) : Z * list ascii :=
  match s with
  | c :: r =>
      if Ascii.eqb c "e" || Ascii.eqb c "E" then
        let '(sgn, digits) :=
          match r with
          | "+"%char :: t => (1, t)
          | "-"%char :: t => (-1, t)
          | _ => (1, r)
          end in
        let '(x, nx, rest) := read_digits 10 0 0 digits in
        if nx =? 0 then (0, s) else (sgn * x, rest)
      else (0, s)
  | [] => (0, s)
  end.

(** StrUnsignedDecimalLiteral: [Infinity], or digits with an optional
    fraction and an optional exponent; at least one digit around the
    dot. *)
Definition StrUnsignedDecimalLiteral (neg : bool) (s : list ascii)
  : option (number * list ascii) :=
  match strip_prefix (list_ascii_of_string "Infinity") s with
  | Some r => Some (S754_infinity neg, r)
  | None =>
      let '(i, ni, r1) := read_digits 10 0 0 s in
      let '(m, nf, r2) :=
        match r1 with
        | "."%char :: r => read_digits 10 i 0 r
        | _ => (i, 0, r1)
        end in
      if ni + nf =? 0 then None
      else
        let '(e, r3) := ExponentPart r2 in
        Some (decimal_value neg m (e - nf), r3)
  end.

Definition radix_of_prefix (c : ascii) : option Z :=
  if Ascii.eqb c "x" || Ascii.eqb c "X" then Some 16
  else if Ascii.eqb c "o" || Ascii.eqb c "O" then Some 8
  else if Ascii.eqb c "b" || Ascii.eqb c "B" then Some 2
  else None.

(** StrDecimalLiteral with its optional sign. *)
Definition StrDecimalLiteral (s : list ascii) : option (number * list ascii) :=
  match s with
  | "+"%char :: r => StrUnsignedDecimalLiteral false r
  | "-"%char :: r => StrUnsignedDecimalLiteral true r
  | _ => StrUnsignedDecimalLiteral false s
  end.

(** StrNumericLiteral: a signed decimal literal or an unsigned
    hexadecimal, octal or binary integer literal. *)
Definition StrNumericLiteral (s : list ascii) : option (number * list ascii) :=
  match s with
  | "0"%char :: x :: r =>
      match radix_of_prefix x with
      | Some radix =>
          let '(v, n, rest) := read_digits radix 0 0 r in
          if n =? 0 then StrDecimalLiteral s
          else Some (number_of_Z v, rest)
      | None => StrDecimalLiteral s
      end
  | _ => StrDecimalLiteral s
  end.

(** The whole string must be white space, or one literal with white
    space around it; anything else is NaN. *)
Definition parse (str : string) : number :=
  match StrWhiteSpace_opt (list_ascii_of_string str) with
  | [] => S754_zero false
  | s =>
      match StrNumericLiteral s with
      | Some (n, rest) =>
          match StrWhiteSpace_opt rest with
          | [] => n
          | _ => S754_nan
          end
      | None => S754_nan
      end
  end.

End StringToNumber.

(** ** Values *)

(** The primitive values a schema or the environment can hold. *)
Inductive value :=
| VUndefined
| VNull
| VBoolean (b : bool)
| VNumber (n : number)
| VString (s : string).

(** [Number(value)]: ToNumber on a primitive. *)
Definition Number (v : value) : number :=
  match v with
  | VUndefined => S754_nan
  | VNull => S754_zero false
  | VBoolean true => number_of_Z 1
  | VBoolean false => S754_zero false
  | VNumber n => n
  | VString s => StringToNumber.parse s
  end.

(** [a === b]. *)
Definition strict_equals (a b : value) : bool :=
  match a, b with
  | VUndefined, VUndefined => true
  | VNull, VNull => true
  | VBoolean x, VBoolean y => Bool.eqb x y
  | VNumber x, VNumber y => SFeqb x y
  | VString x, VString y => String.eqb x y
  | _, _ => false
  end.

(** [a == null], true of undefined and null only. *)
Definition loosely_null (a : value) : bool :=
  match a with
  | VUndefined | VNull => true
  | _ => false
  end.

(** SameValueZero, the comparison of [Array.prototype.includes]: as
    [===] except that NaN equals NaN. *)
Definition same_value_zero (a b : value) : bool :=
  match a, b with
  | VNumber x, VNumber y => (isNaN x && isNaN y) || SFeqb x y
  | _, _ => strict_equals a b
  end.

(** [array.includes(v)]. *)
Definition includes (array : list value) (v : value) : bool :=
  existsb (same_value_zero v) array.

(** Truthiness of an optional boolean field; a field left out reads as
    undefined. *)
Definition truthy (field : option bool) : bool :=
  match field with
  | Some b => b
  | None => false
  end.

(** ** Objects *)

(** A plain object: its own properties in order of creation. *)
Definition object (A : Type) : Type := list (string * A).

Fixpoint obj_get {A} (o : object A) (key : string) : option A :=
  match o with
  | [] => None
  | (k, a) :: o' => if String.eqb k key then Some a else obj_get o' key
  end.

(** [o[key] = a]: an existing property keeps its place. *)
Fixpoint obj_set {A} (o : object A) (key : string) (a : A) : object A :=
  match o with
  | [] => [(key, a)]
  | (k, b) :: o' =>
      if String.eqb k key then (k, a) :: o' else (k, b) :: obj_set o' key a
  end.

Definition obj_keys {A} (o : object A) : list string := map fst o.

(** An array index is a canonical numeric string below 2^32 - 1. *)
Definition array_index (key : string) : option Z :=
  let cs := list_ascii_of_string key in
  let '(v, n, rest) := StringToNumber.read_digits 10 0 0 cs in
  match rest with
  | [] =>
      let canonical :=
        match cs with
        | "0"%char :: _ :: _ => false
        | [] => false
        | _ => true
        end in
      if canonical && (v <=? 4294967294) then Some v else None
  | _ :: _ => None
  end.

Fixpoint insert_index (i : Z) (key : string) (l : list (Z * string))
  : list (Z * string) :=
  match l with
  | [] => [(i, key)]
  | (j, k) :: l' =>
      if i <? j then (i, key) :: l else (j, k) :: insert_index i key l'
  end.

Definition index_keys (keys : list string) : list (Z * string) :=
  fold_right
    (fun k acc => match array_index k with
                  | Some i => insert_index i k acc
                  | None => acc
                  end)
    [] keys.

Definition is_array_index (key : string) : bool :=
  match array_index key with
  | Some _ => true
  | None => false
  end.

(** [for (const key in o)]: array indices in ascending order, then the
    other keys in order of creation. *)
Definition for_in {A} (o : object A) : list string :=
  map snd (index_keys (obj_keys o))
    ++ List.filter (fun k => negb (is_array_index k)) (obj_keys o).

(** ** The schema *)

(** [type: "string" | "number" | "boolean"]. *)
Inductive EnvType := type_string | type_number | type_boolean.

(** [EnvSchema], the rule of one variable.  A [default] left out is
    [VUndefined]; [required] and [oneOf] may be left out. *)
Record EnvSchema := {
  type : EnvType;
  required : option bool;
  default : value;
  oneOf : option (list value)
}.

Definition is_number (t : EnvType) : bool :=
  match t with type_number => true | _ => false end.

Definition is_boolean (t : EnvType) : bool :=
  match t with type_boolean => true | _ => false end.

(** ** The process *)

(** The texts written to the console, by their template. *)
Inductive message :=
| MissingRequired (key : string)
    (* Missing required environment variable: ${key} *)
| MustBeNumber (key : string) (got : value)
    (* Environment variable ${key} must be a number (got ${value}) *)
| MustBeOneOf (key : string) (allowed : list value)
    (* Environment variable ${key} must be one of: ${rules.oneOf.join(", ")} *)
| LoadedSuccessfully (key : string)
    (* ${key} loaded successfully *)
| ErrorValidating (key : string).
    (* Error validating ${key}: ${err.message || err} *)

(** [chalk.red(...)] and [chalk.green(...)]. *)
Inductive styled := red (m : message) | green (m : message).

Inductive event :=
| console_error (line : styled)
| console_log (line : styled).

Record process := {
  env : gmap string string;
  console : list event
}.

(** A statement completes normally with a value or ends the process. *)
Inductive completion (A : Type) :=
| Normal (a : A)
| Exit (code : Z).
Arguments Normal {A} a.
Arguments Exit {A} code.

Definition M (A : Type) : Type := process -> completion A * process.

#[global] Instance M_ret : MRet M := fun A a p => (Normal a, p).

#[global] Instance M_bind : MBind M := fun A B f m p =>
  match m p with
  | (Normal a, p') => f a p'
  | (Exit code, p') => (Exit code, p')
  end.

(** [process.env[key]]. *)
Definition getenv (key : string) : M value := fun p =>
  (Normal match env p !! key with
          | Some s => VString s
          | None => VUndefined
          end, p).

(** The process after some more lines went to the console. *)
Definition emit (out : list event) (p : process) : process :=
  {| env := env p; console := console p ++ out |}.

(** [console.error(line)] and [console.log(line)]. *)
Definition write (e : event) : M unit := fun p => (Normal tt, emit [e] p).

(** [process.exit(code)] does not return. *)
Definition process_exit (code : Z) : M unit := fun p => (Exit code, p).

(** ** guard *)

Section Guard.

Variable schema : object EnvSchema.

(** The statements under "Missing check":
<<
    if (value == null || value === "") {
      if (rules.required && rules.default === undefined) {
        console.error(chalk.red(`Missing required environment variable: ${key}`));
        process.exit(1);
      }
      value = rules.default;
    }
>> *)
Definition missing_check (key : string) (rules : EnvSchema) (v : value)
  : M value :=
  if loosely_null v || strict_equals v (VString "") then
    (if truthy (required rules) && strict_equals (default rules) VUndefined
     then write (console_error (red (MissingRequired key)));;
          process_exit 1
     else mret tt);;
    mret (default rules)
  else mret v.

(** The statements under "Type casting":
<<
    if (rules.type === "number" && value != null) {
      const num = Number(value);
      if (isNaN(num)) {
        console.error(chalk.red(`Environment variable ${key} must be a number (got ...)`));
        process.exit(1);
      }
      value = num;
    }
    if (rules.type === "boolean" && value != null) {
      value = value === "true" || value === "1";
    }
>> *)
Definition type_casting (key : string) (rules : EnvSchema) (v : value)
  : M value :=
  v ← (if is_number (type rules) && negb (loosely_null v) then
         let num := Number v in
         (if isNaN num
          then write (console_error (red (MustBeNumber key v)));;
               process_exit 1
          else mret tt);;
         mret (VNumber num)
       else mret v);
  if is_boolean (type rules) && negb (loosely_null v)
  then mret (VBoolean (strict_equals v (VString "true")
                       || strict_equals v (VString "1")))
  else mret v.

(** The statement under "oneOf validation":
<<
    if (rules.oneOf && !rules.oneOf.includes(value)) {
      console.error(chalk.red(`Environment variable ${key} must be one of: ...`));
      process.exit(1);
    }
>>
    An array is truthy also when it is empty. *)
Definition oneOf_validation (key : string) (rules : EnvSchema) (v : value)
  : M unit :=
  match oneOf rules with
  | Some allowed =>
      if negb (includes allowed v)
      then write (console_error (red (MustBeOneOf key allowed)));;
           process_exit 1
      else mret tt
  | None => mret tt
  end.

(** The checks of one key, from [let value = process.env[key]] to the
    value that is stored. *)
Definition check (key : string) (rules : EnvSchema) : M value :=
  v ← getenv key;
  v ← missing_check key rules v;
  v ← type_casting key rules v;
  oneOf_validation key rules v;;
  mret v.

(** One turn of the loop: [const rules = schema[key]], the checks, then
<<
    result[key] = value;
    console.log(chalk.green(`${key} loaded successfully`));
>>
    Without a rule object the first property read throws, which the
    [catch] clause reports before it exits. *)
Definition iteration (key : string) (result : object value)
  : M (object value) :=
  match obj_get schema key with
  | Some rules =>
      v ← check key rules;
      let result := obj_set result key v in
      write (console_log (green (LoadedSuccessfully key)));;
      mret result
  | None =>
      write (console_error (red (ErrorValidating key)));;
      process_exit 1;;
      mret result
  end.

(** The turns of [for (const key in schema)], threading [result]. *)
Fixpoint for_each (keys : list string) (result : object value)
  : M (object value) :=
  match keys with
  | [] => mret result
  | key :: keys' =>
      result ← iteration key result;
      for_each keys' result
  end.

(** [const result = {}; for (const key in schema) { ... } return result;] *)
Definition guard : M (object value) := for_each (for_in schema) [].

End Guard.

(** A process with the given variables and a silent console. *)
Definition start (e : list (string * string)) : process :=
  {| env := list_to_map e; console := [] |}.

(** A rule with only its type given. *)
Definition rule (t : EnvType) : EnvSchema :=
  {| type := t; required := None; default := VUndefined; oneOf := None |}.

(** ** Reading the model *)

(** A variable counts as missing when it is unset or set to the empty
    string: the condition [value == null || value === ""]. *)
Definition missing (raw : option string) : bool :=
  match raw with
  | None => true
  | Some s => String.eqb s ""
  end.

(** Two readings of a variable that the missing check cannot tell apart. *)
Definition same_reading (a b : option string) : Prop :=
  a = b \/ (missing a = true /\ missing b = true).

Definition completes {A} (c : completion A) : bool :=
  match c with
  | Normal _ => true
  | Exit _ => false
  end.

(** The key passes all its checks in the process [p]. *)
Definition accepts (schema : object EnvSchema) (p : process) (key : string)
  : bool :=
  match obj_get schema key with
  | Some rules => completes (fst (check key rules p))
  | None => false
  end.

(** The key fails one of its checks in the process [p]. *)
Definition rejects (schema : object EnvSchema) (p : process) (key : string)
  : bool :=
  match obj_get schema key with
  | Some rules => negb (completes (fst (check key rules p)))
  | None => false
  end.

(** The value [process.env[key]] reads from a variable. *)
Definition raw_value (raw : option string) : value :=
  match raw with
  | Some s => VString s
  | None => VUndefined
  end.

(** The checks of one key once the environment has been read. *)
Definition settle (key : string) (rules : EnvSchema) (v : value) : M value :=
  v1 ← missing_check key rules v;
  v2 ← type_casting key rules v1;
  oneOf_validation key rules v2;;
  mret v2.

(** The variable a console line is about. *)
Definition message_key (m : message) : string :=
  match m with
  | MissingRequired key | MustBeNumber key _ | MustBeOneOf key _
  | LoadedSuccessfully key | ErrorValidating key => key
  end.

Definition loaded (key : string) : event :=
  console_log (green (LoadedSuccessfully key)).

(** ** Schemas of the documentation *)

Definition PORT_rule : EnvSchema :=
  {| type := type_number; required := Some true;
     default := VUndefined; oneOf := None |}.

Definition NODE_ENV_rule : EnvSchema :=
  {| type := type_string; required := Some true; default := VUndefined;
     oneOf := Some [VString "development"; VString "production";
                    VString "test"] |}.

Definition DEBUG_rule : EnvSchema :=
  {| type := type_boolean; required := None;
     default := VBoolean false; oneOf := None |}.

Definition quick_start : object EnvSchema :=
  [("PORT", PORT_rule); ("NODE_ENV", NODE_ENV_rule); ("DEBUG", DEBUG_rule)].

(** A rule whose default is not in its list. *)
Definition LOG_LEVEL_rule : EnvSchema :=
  {| type := type_string; required := None; default := VString "verbose";
     oneOf := Some [VString "info"; VString "warn"; VString "error"] |}.

(** The rule [{type: "number", oneOf: [1, 2, 3]}]. *)
Definition LEVEL_rule : EnvSchema :=
  {| type := type_number; required := None; default := VUndefined;
     oneOf := Some [VNumber (number_of_Z 1); VNumber (number_of_Z 2);
                    VNumber (number_of_Z 3)] |}.

(** ** Further readings of the model *)

(** The name starts with a decimal digit. *)
Definition leading_digit (key : string) : bool :=
  match key with
  | String c _ =>
      match StringToNumber.digit_in 10 c with
      | Some _ => true
      | None => false
      end
  | EmptyString => false
  end.

(** TAB, LF, VT, FF, CR and SP, the white space of one byte. *)
Definition blank (c : ascii) : bool :=
  Ascii.eqb c "009" || Ascii.eqb c "010" || Ascii.eqb c "011"
  || Ascii.eqb c "012" || Ascii.eqb c "013" || Ascii.eqb c " ".

(** The value a raw string is cast to under each type. *)
Definition cast_of (t : EnvType) (s : string) : value :=
  match t with
  | type_string => VString s
  | type_number => VNumber (StringToNumber.parse s)
  | type_boolean => VBoolean (String.eqb s "true" || String.eqb s "1")
  end.

(** Both names are array indices, the first one not above the second. *)
Definition index_before (a b : string) : Prop :=
  exists i j, array_index a = Some i /\ array_index b = Some j /\ i <= j.

(** The ten decimal digits. *)
Definition decimal_digit (c : ascii) : Prop :=
  In c ["0"; "1"; "2"; "3"; "4"; "5"; "6"; "7"; "8"; "9"]%char.

(** The number written by the digits [d] after the digits that gave
    [acc]. *)
Fixpoint uint_acc (d : Decimal.uint) (acc : Z) : Z :=
  match d with
  | Decimal.Nil => acc
  | Decimal.D0 d => uint_acc d (acc * 10 + 0)
  | Decimal.D1 d => uint_acc d (acc * 10 + 1)
  | Decimal.D2 d => uint_acc d (acc * 10 + 2)
  | Decimal.D3 d => uint_acc d (acc * 10 + 3)
  | Decimal.D4 d => uint_acc d (acc * 10 + 4)
  | Decimal.D5 d => uint_acc d (acc * 10 + 5)
  | Decimal.D6 d => uint_acc d (acc * 10 + 6)
  | Decimal.D7 d => uint_acc d (acc * 10 + 7)
  | Decimal.D8 d => uint_acc d (acc * 10 + 8)
  | Decimal.D9 d => uint_acc d (acc * 10 + 9)
  end.

(** ** Proof steps *)

Ltac split_branches :=
  repeat match goal with
         | |- context [if ?b then _ else _] => destruct b eqn:?
         | |- context [match ?o with Some _ => _ | None => _ end] =>
             destruct o eqn:?
         end.

Ltac unfold_checks :=
  unfold settle, missing_check, type_casting, oneOf_validation,
    mbind, M_bind, mret, M_ret, write, process_exit.

(** ** Basic facts *)

Lemma emit_nil p : emit [] p = p.
Proof. destruct p; unfold emit; simpl. by rewrite app_nil_r. Qed.

Lemma emit_emit out1 out2 p : emit out2 (emit out1 p) = emit (out1 ++ out2) p.
Proof. unfold emit; simpl. by rewrite app_assoc. Qed.

Lemma env_emit out p : env (emit out p) = env p.
Proof. reflexivity. Qed.

Lemma console_emit out p : console (emit out p) = console p ++ out.
Proof. reflexivity. Qed.

Lemma same_reading_refl a : same_reading a a.
Proof. by left. Qed.

Lemma same_reading_sym a b : same_reading a b -> same_reading b a.
Proof. intros [->|[? ?]]; [by left | by right]. Qed.

Lemma missing_empty_string s : missing (Some s) = true -> s = "".
Proof. simpl. intros H. by apply String.eqb_eq in H. Qed.

Lemma check_settle key rules p :
  check key rules p = settle key rules (raw_value (env p !! key)) p.
Proof. reflexivity. Qed.

(** What follows the read of the environment does not look at the
    process again.  It either completes normally and writes nothing, or
    writes one red line and exits with status 1. *)
Lemma settle_shape key rules v :
  exists c out,
    (forall q, settle key rules v q = (c, emit out q)) /\
    match c with
    | Normal _ => out = []
    | Exit code =>
        code = 1 /\
        exists m, out = [console_error (red m)] /\ message_key m = key
    end.
Proof.
  unfold_checks. destruct rules as [t r d o]; simpl.
  split_branches.
  all: eexists _, _; split;
    [ intros q; rewrite ?emit_emit;
      first [ reflexivity | rewrite <- (emit_nil q) at 1; reflexivity ]
    | simpl; eauto ].
Qed.

Lemma settle_missing key rules a b :
  missing a = true -> missing b = true ->
  settle key rules (raw_value a) = settle key rules (raw_value b).
Proof.
  intros Ha Hb.
  assert (E : forall r, missing r = true ->
            settle key rules (raw_value r) = settle key rules VUndefined).
  { intros [s|] Hr; [|reflexivity].
    apply missing_empty_string in Hr. subst s. reflexivity. }
  rewrite (E a Ha), (E b Hb). reflexivity.
Qed.

Lemma settle_same_reading key rules a b :
  same_reading a b ->
  settle key rules (raw_value a) = settle key rules (raw_value b).
Proof.
  intros [->|[Ha Hb]]; [reflexivity | by apply settle_missing].
Qed.

(** The checks of a key depend on the process through the reading of
    that one variable only. *)
Lemma check_shape key rules p :
  exists c out,
    (forall q, same_reading (env q !! key) (env p !! key) ->
               check key rules q = (c, emit out q)) /\
    match c with
    | Normal _ => out = []
    | Exit code =>
        code = 1 /\
        exists m, out = [console_error (red m)] /\ message_key m = key
    end.
Proof.
  destruct (settle_shape key rules (raw_value (env p !! key)))
    as (c & out & Hrun & Hout).
  exists c, out. split; [|exact Hout].
  intros q Hq. rewrite check_settle.
  rewrite (settle_same_reading key rules _ _ Hq). apply Hrun.
Qed.

Lemma check_normal key rules p v p' :
  check key rules p = (Normal v, p') -> p' = p.
Proof.
  destruct (check_shape key rules p) as (c & out & Hrun & Hout).
  rewrite (Hrun p (same_reading_refl _)). intros [= -> <-].
  subst out. apply emit_nil.
Qed.

Lemma check_exit key rules p code p' :
  check key rules p = (Exit code, p') ->
  code = 1 /\
  exists m, p' = emit [console_error (red m)] p /\ message_key m = key.
Proof.
  destruct (check_shape key rules p) as (c & out & Hrun & Hout).
  rewrite (Hrun p (same_reading_refl _)). intros [= -> <-].
  destruct Hout as [-> [m [-> Hm]]]. eauto.
Qed.

Lemma check_fst_emit key rules out p :
  fst (check key rules (emit out p)) = fst (check key rules p).
Proof.
  destruct (check_shape key rules p) as (c & out' & Hrun & _).
  rewrite (Hrun p (same_reading_refl _)).
  rewrite (Hrun (emit out p)); [reflexivity | apply same_reading_refl].
Qed.

(** *** Objects *)

Lemma obj_get_set_eq {A} (o : object A) k a : obj_get (obj_set o k a) k = Some a.
Proof.
  induction o as [|[k' b] o IH]; simpl.
  - by rewrite String.eqb_refl.
  - destruct (String.eqb k' k) eqn:E; simpl; rewrite E; [done | exact IH].
Qed.

Lemma obj_get_set_ne {A} (o : object A) k k' a :
  k <> k' -> obj_get (obj_set o k a) k' = obj_get o k'.
Proof.
  intros Hne. induction o as [|[k0 b] o IH]; simpl.
  - destruct (String.eqb k k') eqn:E; [|done].
    apply String.eqb_eq in E. contradiction.
  - destruct (String.eqb k0 k) eqn:E; simpl.
    + apply String.eqb_eq in E. subst k0.
      destruct (String.eqb k k') eqn:E'; [|done].
      apply String.eqb_eq in E'. contradiction.
    + by rewrite IH.
Qed.

Lemma obj_get_keys {A} (o : object A) k :
  In k (obj_keys o) <-> exists a, obj_get o k = Some a.
Proof.
  induction o as [|[k' b] o IH]; simpl.
  - split; [tauto | intros [? [=]]].
  - destruct (String.eqb k' k) eqn:E.
    + apply String.eqb_eq in E. split; eauto.
    + apply String.eqb_neq in E. rewrite <- IH. tauto.
Qed.

Lemma obj_keys_set {A} (o : object A) k a k' :
  In k' (obj_keys (obj_set o k a)) <-> k' = k \/ In k' (obj_keys o).
Proof.
  rewrite !obj_get_keys. destruct (String.eqb_spec k k') as [->|Hne].
  - rewrite obj_get_set_eq. split; eauto.
  - rewrite obj_get_set_ne by done. split; [eauto | intros [?|?]; congruence || done].
Qed.

(** *** Enumeration order *)

Lemma In_insert_index i k l x :
  In x (insert_index i k l) <-> x = (i, k) \/ In x l.
Proof.
  induction l as [|[j k'] l IH]; simpl.
  - split; intros [?|?]; auto.
  - destruct (i <? j); simpl; [split; intros [?|?]; auto|].
    rewrite IH. split; intros H; tauto.
Qed.

Lemma In_index_keys keys i k :
  In (i, k) (index_keys keys) <-> In k keys /\ array_index k = Some i.
Proof.
  induction keys as [|k' keys IH]; simpl; [tauto|].
  destruct (array_index k') as [j|] eqn:E.
  - rewrite In_insert_index, IH. split.
    + intros [[= -> ->]|[? ?]]; auto.
    + intros [[->|?] Hk]; [left; congruence | auto].
  - rewrite IH. split; [tauto|].
    intros [[->|?] Hk]; [congruence | auto].
Qed.

(** The loop visits exactly the keys of the object. *)
Lemma In_for_in {A} (o : object A) k : In k (for_in o) <-> In k (obj_keys o).
Proof.
  unfold for_in. rewrite in_app_iff, filter_In, in_map_iff.
  unfold is_array_index. split.
  - intros [[[i k'] [Hk Hin]]|[Hin _]]; [|done].
    simpl in Hk. subst k'. by apply In_index_keys in Hin as [? _].
  - intros Hin. destruct (array_index k) as [i|] eqn:E; [left|right; auto].
    exists (i, k). split; [done|]. by apply In_index_keys.
Qed.

(** *** The loop *)

Lemma bind_normal {A B} (m : M A) (f : A -> M B) p a p' :
  m p = (Normal a, p') -> (m ≫= f) p = f a p'.
Proof. intros H. unfold mbind, M_bind. by rewrite H. Qed.

Lemma bind_exit {A B} (m : M A) (f : A -> M B) p code p' :
  m p = (Exit code, p') -> (m ≫= f) p = (Exit code, p').
Proof. intros H. unfold mbind, M_bind. by rewrite H. Qed.

Lemma iteration_normal schema key rules result p v :
  obj_get schema key = Some rules ->
  check key rules p = (Normal v, p) ->
  iteration schema key result p
  = (Normal (obj_set result key v), emit [loaded key] p).
Proof.
  intros Hrules Hcheck. unfold iteration. rewrite Hrules.
  erewrite bind_normal by exact Hcheck. reflexivity.
Qed.

Lemma iteration_exit schema key rules result p code p' :
  obj_get schema key = Some rules ->
  check key rules p = (Exit code, p') ->
  iteration schema key result p = (Exit code, p').
Proof.
  intros Hrules Hcheck. unfold iteration. rewrite Hrules.
  by erewrite bind_exit by exact Hcheck.
Qed.

Lemma iteration_no_rules schema key result p :
  obj_get schema key = None ->
  iteration schema key result p
  = (Exit 1, emit [console_error (red (ErrorValidating key))] p).
Proof. intros Hrules. unfold iteration. by rewrite Hrules. Qed.

Lemma accepts_emit schema out p k :
  accepts schema (emit out p) k = accepts schema p k.
Proof.
  unfold accepts. destruct (obj_get schema k); [|done].
  by rewrite check_fst_emit.
Qed.

Lemma rejects_emit schema out p k :
  rejects schema (emit out p) k = rejects schema p k.
Proof.
  unfold rejects. destruct (obj_get schema k); [|done].
  by rewrite check_fst_emit.
Qed.

Lemma accepts_check schema p k :
  accepts schema p k = true ->
  exists rules v, obj_get schema k = Some rules /\
                  check k rules p = (Normal v, p).
Proof.
  unfold accepts. destruct (obj_get schema k) as [rules|]; [|done].
  destruct (check k rules p) as [[v|code] p'] eqn:E; [|done].
  intros _. exists rules, v. split; [done|].
  by rewrite (check_normal _ _ _ _ _ E) in E.
Qed.

Lemma rejects_check schema p k :
  rejects schema p k = true ->
  exists rules m, obj_get schema k = Some rules /\
                  message_key m = k /\
                  check k rules p = (Exit 1, emit [console_error (red m)] p).
Proof.
  unfold rejects. destruct (obj_get schema k) as [rules|]; [|done].
  destruct (check k rules p) as [[v|code] p'] eqn:E; [done|].
  intros _. destruct (check_exit _ _ _ _ _ E) as [-> [m [-> Hm]]].
  by exists rules, m.
Qed.

(** The loop as a whole reads the process only through the variables it
    visits, and only adds lines to the console. *)
Lemma for_each_shape schema keys :
  forall result p, exists c out, forall q,
    (forall k, In k keys -> same_reading (env q !! k) (env p !! k)) ->
    for_each schema keys result q = (c, emit out q).
Proof.
  induction keys as [|key keys IH]; intros result p.
  - exists (Normal result), []. intros q _. simpl. by rewrite emit_nil.
  - destruct (obj_get schema key) as [rules|] eqn:Hrules.
    + destruct (check_shape key rules p) as (c & out & Hrun & Hout).
      destruct c as [v|code].
      * subst out.
        destruct (IH (obj_set result key v) p) as (c2 & out2 & Hrest).
        exists c2, (loaded key :: out2). intros q Hq. simpl.
        assert (Hc : check key rules q = (Normal v, q)).
        { rewrite (Hrun q) by (apply Hq; by left). by rewrite emit_nil. }
        erewrite bind_normal by (eapply iteration_normal; eauto).
        rewrite (Hrest (emit [loaded key] q)).
        -- by rewrite emit_emit.
        -- intros k Hk. rewrite env_emit. apply Hq. by right.
      * exists (Exit code), out. intros q Hq. simpl.
        erewrite bind_exit; [reflexivity|].
        eapply iteration_exit; [done|]. apply Hrun, Hq. by left.
    + exists (Exit 1), [console_error (red (ErrorValidating key))].
      intros q _. simpl. erewrite bind_exit; [reflexivity|].
      by apply iteration_no_rules.
Qed.

(** When the loop runs to its end, every key it visited was accepted, the
    result holds the checked value of each, nothing else changed in it,
    and the console got one green line per key. *)
Lemma for_each_normal schema keys :
  forall result p r' p',
    for_each schema keys result p = (Normal r', p') ->
    p' = emit (map loaded keys) p /\
    (forall k, In k keys ->
       exists rules v, obj_get schema k = Some rules /\
                       check k rules p = (Normal v, p) /\
                       obj_get r' k = Some v) /\
    (forall k, ~ In k keys -> obj_get r' k = obj_get result k).
Proof.
  induction keys as [|key keys IH]; intros result p r' p' Hrun.
  - simpl in Hrun. injection Hrun as <- <-.
    split; [by rewrite emit_nil|]. split; [intros k []|done].
  - simpl in Hrun.
    destruct (obj_get schema key) as [rules|] eqn:Hrules.
    2:{ erewrite bind_exit in Hrun by (by apply iteration_no_rules). done. }
    destruct (check key rules p) as [[v|code] p1] eqn:Hcheck.
    2:{ erewrite bind_exit in Hrun by (by eapply iteration_exit). done. }
    rewrite (check_normal _ _ _ _ _ Hcheck) in Hcheck.
    erewrite bind_normal in Hrun by (by eapply iteration_normal).
    apply IH in Hrun as (Hp' & Hin & Hout).
    split; [by rewrite Hp', emit_emit|]. split.
    + intros k Hk.
      destruct (in_dec String.string_dec k keys) as [Hkeys|Hkeys].
      * destruct (Hin k Hkeys) as (rules' & v' & ? & Hc & ?).
        exists rules', v'. split; [done|]. split; [|done].
        pose proof (check_fst_emit k rules' [loaded key] p) as Hfst.
        rewrite Hc in Hfst. simpl in Hfst.
        destruct (check k rules' p) as [c p2] eqn:E. simpl in Hfst. subst c.
        by rewrite (check_normal _ _ _ _ _ E).
      * destruct Hk as [<-|Hk]; [|done].
        exists rules, v. split; [done|]. split; [done|].
        rewrite (Hout key Hkeys). apply obj_get_set_eq.
    + intros k Hk. rewrite Hout by (intros ?; apply Hk; by right).
      apply obj_get_set_ne. intros ->. apply Hk. by left.
Qed.

(** The loop stops at the first key that fails: the keys before it each
    got their green line, the failing key its red line, and the process
    exits with status 1 without looking at the keys after it. *)
Lemma for_each_exit schema pre k post :
  forall result p,
    (forall k', In k' pre -> accepts schema p k' = true) ->
    rejects schema p k = true ->
    exists m,
      message_key m = k /\
      for_each schema (pre ++ k :: post) result p
      = (Exit 1, emit (map loaded pre ++ [console_error (red m)]) p).
Proof.
  induction pre as [|key pre IH]; intros result p Hpre Hk.
  - destruct (rejects_check _ _ _ Hk) as (rules & m & Hrules & Hm & Hcheck).
    exists m. split; [done|]. simpl. erewrite bind_exit; [reflexivity|].
    by eapply iteration_exit.
  - destruct (accepts_check schema p key) as (rules & v & Hrules & Hcheck).
    { apply Hpre. by left. }
    destruct (IH (obj_set result key v) (emit [loaded key] p)) as (m & Hm & Hrun).
    { intros k' Hk'. rewrite accepts_emit. apply Hpre. by right. }
    { by rewrite rejects_emit. }
    exists m. split; [done|]. simpl.
    erewrite bind_normal by (by eapply iteration_normal).
    by rewrite Hrun, emit_emit.
Qed.

(** When every key passes, the loop returns an object and the console
    gets one green line per key. *)
Lemma for_each_accepted schema keys :
  forall result p,
    (forall k, In k keys -> accepts schema p k = true) ->
    exists r',
      for_each schema keys result p = (Normal r', emit (map loaded keys) p).
Proof.
  induction keys as [|key keys IH]; intros result p Hall.
  - exists result. simpl. by rewrite emit_nil.
  - destruct (accepts_check schema p key) as (rules & v & Hrules & Hcheck).
    { apply Hall. by left. }
    destruct (IH (obj_set result key v) (emit [loaded key] p)) as [r' Hr'].
    { intros k Hk. rewrite accepts_emit. apply Hall. by right. }
    exists r'. simpl.
    erewrite bind_normal by (by eapply iteration_normal).
    by rewrite Hr', emit_emit.
Qed.

(** ** Examples from the documentation *)

Example quick_start_loads :
  guard quick_start
    (start [("PORT", "3000"); ("NODE_ENV", "development"); ("DEBUG", "true")])
  = (Normal [("PORT", VNumber (number_of_Z 3000));
             ("NODE_ENV", VString "development");
             ("DEBUG", VBoolean true)],
     emit [loaded "PORT"; loaded "NODE_ENV"; loaded "DEBUG"]
       (start [("PORT", "3000"); ("NODE_ENV", "development");
               ("DEBUG", "true")])).
Proof. vm_compute. reflexivity. Qed.

Example quick_start_staging :
  guard quick_start (start [("PORT", "3000"); ("NODE_ENV", "staging")])
  = (Exit 1,
     emit [loaded "PORT";
           console_error (red (MustBeOneOf "NODE_ENV"
             [VString "development"; VString "production"; VString "test"]))]
       (start [("PORT", "3000"); ("NODE_ENV", "staging")])).
Proof. vm_compute. reflexivity. Qed.

Example number_12_5 :
  StringToNumber.parse "12.5" = S754_finite false 7036874417766400 (-49).
Proof. vm_compute. reflexivity. Qed.

Example number_abc : StringToNumber.parse "abc" = S754_nan.
Proof. vm_compute. reflexivity. Qed.

Example enumeration_order :
  for_in [("b", 1); ("2", 2); ("a", 3); ("10", 4); ("01", 5)]
  = ["2"; "10"; "b"; "a"; "01"].
Proof. vm_compute. reflexivity. Qed.

(** ** Failing keys *)

(** C1, as found in the code.  With two failing keys the run does not
    return a list of both failures: it writes the red line of the first
    failing key to the console and ends the process with status 1; the
    second failure is never reported. *)
Lemma guard_two_failures_stops_at_first :
  rejects quick_start (start [("NODE_ENV", "staging")]) "PORT" = true /\
  rejects quick_start (start [("NODE_ENV", "staging")]) "NODE_ENV" = true /\
  guard quick_start (start [("NODE_ENV", "staging")])
  = (Exit 1,
     emit [console_error (red (MissingRequired "PORT"))]
       (start [("NODE_ENV", "staging")])).
Proof. vm_compute. auto. Qed.

(** C1, amended.  When some key fails its checks, [guard] does not
    return: after one green line for each key enumerated before the first
    failing key, it writes one red line about that key and exits with
    status 1, whatever the keys after it would have done. *)
Theorem guard_fails_fast schema p pre k post :
  for_in schema = pre ++ k :: post ->
  (forall k', In k' pre -> accepts schema p k' = true) ->
  rejects schema p k = true ->
  exists m,
    message_key m = k /\
    guard schema p
    = (Exit 1, emit (map loaded pre ++ [console_error (red m)]) p).
Proof.
  intros Hkeys Hpre Hk. unfold guard. rewrite Hkeys.
  by apply for_each_exit.
Qed.

Lemma guard_fails_fast_witness :
  exists m,
    message_key m = "NODE_ENV" /\
    guard quick_start (start [("PORT", "3000"); ("NODE_ENV", "staging")])
    = (Exit 1,
       emit (map loaded ["PORT"] ++ [console_error (red m)])
         (start [("PORT", "3000"); ("NODE_ENV", "staging")])).
Proof.
  apply (guard_fails_fast quick_start
           (start [("PORT", "3000"); ("NODE_ENV", "staging")])
           ["PORT"] "NODE_ENV" ["DEBUG"]).
  - vm_compute. reflexivity.
  - intros k' [<-|[]]. vm_compute. reflexivity.
  - vm_compute. reflexivity.
Defined.

(** ** Missing variables *)

Lemma check_missing key rules p :
  missing (env p !! key) = true ->
  check key rules p = settle key rules VUndefined p.
Proof.
  intros Hmiss. rewrite check_settle.
  by rewrite (settle_missing key rules (env p !! key) None Hmiss eq_refl).
Qed.

Lemma strict_equals_undefined v :
  strict_equals v VUndefined = false <-> v <> VUndefined.
Proof. destruct v; simpl; split; congruence. Qed.

(** With a default, a missing variable is replaced by the default, which
    then takes the same road as a value read from the environment. *)
Lemma settle_default key rules p :
  default rules <> VUndefined ->
  settle key rules VUndefined p
  = (v ← type_casting key rules (default rules);
     oneOf_validation key rules v;;
     mret v) p.
Proof.
  intros Hd. apply strict_equals_undefined in Hd.
  unfold settle, missing_check. simpl. rewrite Hd, andb_false_r.
  reflexivity.
Qed.

(** A default is held to the [oneOf] list like a value read from the
    environment: a default outside the list ends the process. *)
Lemma default_outside_oneOf_exits :
  missing (env (start []) !! "LOG_LEVEL") = true /\
  default LOG_LEVEL_rule <> VUndefined /\
  check "LOG_LEVEL" LOG_LEVEL_rule (start [])
  = (Exit 1,
     emit [console_error (red (MustBeOneOf "LOG_LEVEL"
             [VString "info"; VString "warn"; VString "error"]))]
       (start [])).
Proof. split; [|split]; [vm_compute; reflexivity | discriminate | vm_compute; reflexivity]. Qed.

(** The default takes part in the type cast as well: a Boolean-typed rule
    with default [true] stores [false]. *)
Example boolean_default_true :
  check "ENABLE_CACHING"
    {| type := type_boolean; required := None;
       default := VBoolean true; oneOf := None |} (start [])
  = (Normal (VBoolean false), start []).
Proof. vm_compute. reflexivity. Qed.

(** For a key whose variable is missing (unset or empty) and whose rule
    has a default, the line "Missing required environment variable" is
    never written, also when [required] is true.  When the default is of
    the declared kind, other than the number NaN and the boolean [true],
    and [oneOf] is left out or lists the default, the key is accepted
    with exactly the default. *)
Theorem default_when_missing key rules p :
  missing (env p !! key) = true ->
  default rules <> VUndefined ->
  (forall m, check key rules p = (Exit 1, emit [console_error (red m)] p) ->
             m <> MissingRequired key) /\
  ((type rules = type_string /\ exists s, default rules = VString s) \/
   (type rules = type_number /\
    exists n, default rules = VNumber n /\ isNaN n = false) \/
   (type rules = type_boolean /\ default rules = VBoolean false) ->
   (forall allowed, oneOf rules = Some allowed ->
                    includes allowed (default rules) = true) ->
   check key rules p = (Normal (default rules), p)).
Proof.
  intros Hmiss Hd. rewrite (check_missing _ _ _ Hmiss), (settle_default _ _ _ Hd).
  split.
  - intros m. unfold_checks. destruct rules as [t r d o]; simpl.
    split_branches; intros [= H]; apply app_inv_head in H; congruence.
  - intros Hkind Hone. destruct rules as [t r d o]; simpl in *.
    destruct Hkind as [[-> [s ->]]|[[-> (n & -> & Hn)]|[-> ->]]];
      unfold_checks; simpl.
    + destruct o as [allowed|]; [|reflexivity].
      by rewrite (Hone allowed eq_refl).
    + rewrite Hn. simpl. destruct o as [allowed|]; [|reflexivity].
      by rewrite (Hone allowed eq_refl).
    + destruct o as [allowed|]; [|reflexivity].
      by rewrite (Hone allowed eq_refl).
Qed.

Lemma default_when_missing_witness :
  (forall m,
     check "PORT" {| type := type_number; required := Some true;
                     default := VNumber (number_of_Z 3000); oneOf := None |}
       (start [("PORT", "")])
     = (Exit 1, emit [console_error (red m)] (start [("PORT", "")])) ->
     m <> MissingRequired "PORT") /\
  check "PORT" {| type := type_number; required := Some true;
                  default := VNumber (number_of_Z 3000); oneOf := None |}
    (start [("PORT", "")])
  = (Normal (VNumber (number_of_Z 3000)), start [("PORT", "")]).
Proof.
  destruct (default_when_missing "PORT"
              {| type := type_number; required := Some true;
                 default := VNumber (number_of_Z 3000); oneOf := None |}
              (start [("PORT", "")])) as [Hnever Hdefault].
  - vm_compute. reflexivity.
  - discriminate.
  - split; [exact Hnever|]. apply Hdefault.
    + right. left. split; [reflexivity|]. eexists. split; reflexivity.
    + intros allowed. discriminate.
Defined.

(** C2, at the input where the code departs from it.  The README's rule
    [ENABLE_CACHING: { type: "boolean", default: true }] has a default of
    the declared kind; with the variable unset, or set to the empty
    string, the run returns and writes no line about a missing variable,
    but the value it stores is [false], not the default [true]: the
    Boolean cast is applied to the default and compares it with the
    strings "true" and "1". *)
Theorem default_true_is_stored_false :
  default {| type := type_boolean; required := None;
             default := VBoolean true; oneOf := None |} = VBoolean true /\
  guard [("ENABLE_CACHING",
          {| type := type_boolean; required := None;
             default := VBoolean true; oneOf := None |})] (start [])
  = (Normal [("ENABLE_CACHING", VBoolean false)],
     emit [loaded "ENABLE_CACHING"] (start [])) /\
  guard [("ENABLE_CACHING",
          {| type := type_boolean; required := None;
             default := VBoolean true; oneOf := None |})]
    (start [("ENABLE_CACHING", "")])
  = (Normal [("ENABLE_CACHING", VBoolean false)],
     emit [loaded "ENABLE_CACHING"] (start [("ENABLE_CACHING", "")])).
Proof. repeat split; vm_compute; reflexivity. Qed.

(** C3, as found in the code.  A missing, optional key without default is
    not left out of the returned object: it is stored with the value
    undefined. *)
Lemma optional_missing_key_is_stored :
  guard [("LOG_FILE", rule type_string)] (start [])
  = (Normal [("LOG_FILE", VUndefined)], emit [loaded "LOG_FILE"] (start [])) /\
  In "LOG_FILE" (obj_keys [("LOG_FILE", VUndefined)]).
Proof. split; [vm_compute; reflexivity | by left]. Qed.

(** The same key with a [oneOf] list, as in the README's error handling
    example. *)
Example optional_missing_with_oneOf :
  check "NODE_ENV"
    {| type := type_string; required := None; default := VUndefined;
       oneOf := Some [VString "dev"; VString "prod"] |} (start [])
  = (Exit 1,
     emit [console_error (red (MustBeOneOf "NODE_ENV"
             [VString "dev"; VString "prod"]))] (start [])).
Proof. vm_compute. reflexivity. Qed.

Lemma guard_normal schema p result p' :
  guard schema p = (Normal result, p') ->
  p' = emit (map loaded (for_in schema)) p /\
  (forall k rules,
     obj_get schema k = Some rules ->
     exists v, check k rules p = (Normal v, p) /\ obj_get result k = Some v) /\
  (forall k, In k (obj_keys result) -> In k (obj_keys schema)).
Proof.
  intros Hrun. apply for_each_normal in Hrun as (Hp' & Hin & Hout).
  split; [done|]. split.
  - intros k rules Hrules.
    destruct (Hin k) as (rules' & v & Hrules' & Hcheck & Hget).
    { apply In_for_in, obj_get_keys. eauto. }
    rewrite Hrules in Hrules'. injection Hrules' as <-. eauto.
  - intros k Hk. apply In_for_in.
    destruct (in_dec String.string_dec k (for_in schema)) as [|Hnot]; [done|].
    apply obj_get_keys in Hk as [a Ha]. rewrite (Hout k Hnot) in Ha. done.
Qed.

(** C3, amended.  For a key whose variable is missing, that is not
    required, has no default and no [oneOf] list, no error is written and
    the key is stored in the returned object with the value undefined. *)
Theorem optional_missing_is_undefined schema key rules p :
  obj_get schema key = Some rules ->
  missing (env p !! key) = true ->
  truthy (required rules) = false ->
  default rules = VUndefined ->
  oneOf rules = None ->
  check key rules p = (Normal VUndefined, p) /\
  forall result p',
    guard schema p = (Normal result, p') ->
    obj_get result key = Some VUndefined /\ In key (obj_keys result).
Proof.
  intros Hrules Hmiss Hreq Hd Hone.
  assert (Hcheck : check key rules p = (Normal VUndefined, p)).
  { rewrite (check_missing _ _ _ Hmiss). unfold_checks.
    destruct rules as [t r d o]; simpl in *. subst d o. rewrite Hreq.
    simpl. by destruct t. }
  split; [done|]. intros result p' Hrun.
  apply guard_normal in Hrun as (_ & Hin & _).
  destruct (Hin key rules Hrules) as (v & Hv & Hget).
  rewrite Hcheck in Hv. injection Hv as <-.
  split; [done|]. apply obj_get_keys. eauto.
Qed.

Lemma optional_missing_is_undefined_witness :
  check "LOG_FILE" (rule type_number) (start [("PORT", "3000")])
  = (Normal VUndefined, start [("PORT", "3000")]) /\
  forall result p',
    guard [("PORT", PORT_rule); ("LOG_FILE", rule type_number)]
      (start [("PORT", "3000")]) = (Normal result, p') ->
    obj_get result "LOG_FILE" = Some VUndefined /\
    In "LOG_FILE" (obj_keys result).
Proof.
  apply (optional_missing_is_undefined
           [("PORT", PORT_rule); ("LOG_FILE", rule type_number)]
           "LOG_FILE" (rule type_number) (start [("PORT", "3000")]));
    vm_compute; reflexivity.
Defined.

(** ** Type casting *)

(** A variable that is set to a non-empty string goes to the type cast
    as it is. *)
Lemma settle_present key rules s p :
  s <> "" ->
  settle key rules (VString s) p
  = (v ← type_casting key rules (VString s);
     oneOf_validation key rules v;;
     mret v) p.
Proof.
  intros Hs. apply String.eqb_neq in Hs.
  unfold settle, missing_check. simpl. rewrite Hs. reflexivity.
Qed.

Lemma check_present key rules s p :
  env p !! key = Some s -> s <> "" ->
  check key rules p
  = (v ← type_casting key rules (VString s);
     oneOf_validation key rules v;;
     mret v) p.
Proof.
  intros Hget Hs. rewrite check_settle, Hget. by apply settle_present.
Qed.

Lemma true_or_1 s :
  String.eqb s "true" || String.eqb s "1" = true <-> s = "true" \/ s = "1".
Proof. by rewrite orb_true_iff, !String.eqb_eq. Qed.

(** C4.  For a Boolean-typed key and a raw string read from the
    environment the cast always succeeds and writes nothing: the result is
    [true] for the strings "true" and "1" and [false] for every other
    string; without a [oneOf] list the key is accepted with that value. *)
Theorem boolean_cast_never_fails key rules s p :
  type rules = type_boolean ->
  exists b,
    type_casting key rules (VString s) p = (Normal (VBoolean b), p) /\
    (b = true <-> s = "true" \/ s = "1") /\
    (env p !! key = Some s -> s <> "" -> oneOf rules = None ->
     check key rules p = (Normal (VBoolean b), p)).
Proof.
  intros Ht. exists (String.eqb s "true" || String.eqb s "1").
  assert (Hcast : type_casting key rules (VString s) p
                  = (Normal (VBoolean (String.eqb s "true" || String.eqb s "1")), p)).
  { unfold type_casting. rewrite Ht. reflexivity. }
  split; [done|]. split; [apply true_or_1|].
  intros Hget Hs Hone. rewrite (check_present _ _ _ _ Hget Hs).
  erewrite bind_normal by exact Hcast.
  unfold oneOf_validation. rewrite Hone. reflexivity.
Qed.

Lemma boolean_cast_never_fails_witness :
  check "DEBUG" DEBUG_rule (start [("DEBUG", "yes")])
  = (Normal (VBoolean false), start [("DEBUG", "yes")]).
Proof.
  destruct (boolean_cast_never_fails "DEBUG" DEBUG_rule "yes"
              (start [("DEBUG", "yes")]) eq_refl) as (b & _ & Hb & Hcheck).
  rewrite Hcheck; [|vm_compute; reflexivity|discriminate|reflexivity].
  destruct b; [|reflexivity].
  destruct (proj1 Hb eq_refl) as [H|H]; discriminate H.
Defined.

Example boolean_cast_samples :
  map (fun s => fst (type_casting "DEBUG" DEBUG_rule (VString s) (start [])))
    ["true"; "1"; "false"; "0"; "yes"; "TRUE"; ""]
  = [Normal (VBoolean true); Normal (VBoolean true); Normal (VBoolean false);
     Normal (VBoolean false); Normal (VBoolean false);
     Normal (VBoolean false); Normal (VBoolean false)].
Proof. vm_compute. reflexivity. Qed.

(** C5, as found in the code.  A raw string that does not denote a finite
    number is not always refused: "Infinity" is accepted, and the entry of
    the returned object is infinite. *)
Lemma infinity_is_accepted :
  isFinite (StringToNumber.parse "Infinity") = false /\
  guard [("PORT", PORT_rule)] (start [("PORT", "Infinity")])
  = (Normal [("PORT", VNumber (S754_infinity false))],
     emit [loaded "PORT"] (start [("PORT", "Infinity")])).
Proof. split; vm_compute; reflexivity. Qed.

Example overflow_is_accepted :
  fst (check "PORT" PORT_rule (start [("PORT", "1e999")]))
  = Normal (VNumber (S754_infinity false)).
Proof. vm_compute. reflexivity. Qed.

(** The value stored for a Number-typed key is undefined, null, or a
    number other than NaN. *)
Lemma settle_number key rules v0 p v p' :
  type rules = type_number ->
  settle key rules v0 p = (Normal v, p') ->
  v = VUndefined \/ v = VNull \/ exists n, v = VNumber n /\ isNaN n = false.
Proof.
  intros Ht. unfold_checks. destruct rules as [t r d o]; simpl in *. subst t.
  simpl. split_branches; intros [= <- _]; eauto.
  all: match goal with
       | H : negb (loosely_null ?x) = false |- _ =>
           destruct x; simpl in H; try discriminate; auto
       end.
Qed.

(** C5, amended.  For a Number-typed key the raw string goes through
    [Number(...)]; when the result is NaN the line "must be a number" is
    written and the process exits with status 1, and every other result,
    the infinities included, is kept.  So a Number-typed entry of the
    returned object is never NaN. *)
Theorem number_cast_refuses_NaN key rules p :
  type rules = type_number ->
  (forall s,
     type_casting key rules (VString s) p
     = if isNaN (StringToNumber.parse s)
       then (Exit 1, emit [console_error (red (MustBeNumber key (VString s)))] p)
       else (Normal (VNumber (StringToNumber.parse s)), p)) /\
  (forall schema result p' v,
     obj_get schema key = Some rules ->
     guard schema p = (Normal result, p') ->
     obj_get result key = Some v ->
     v = VUndefined \/ v = VNull \/
     exists n, v = VNumber n /\ isNaN n = false).
Proof.
  intros Ht. split.
  - intros s. unfold_checks. rewrite Ht. simpl.
    by destruct (isNaN (StringToNumber.parse s)).
  - intros schema result p' v Hrules Hrun Hget.
    apply guard_normal in Hrun as (_ & Hin & _).
    destruct (Hin key rules Hrules) as (v' & Hcheck & Hget').
    rewrite Hget in Hget'. injection Hget' as <-.
    rewrite check_settle in Hcheck. by eapply settle_number.
Qed.

Lemma number_cast_refuses_NaN_witness :
  (forall s,
     type_casting "PORT" PORT_rule (VString s) (start [("PORT", "12.5")])
     = if isNaN (StringToNumber.parse s)
       then (Exit 1, emit [console_error (red (MustBeNumber "PORT" (VString s)))]
                       (start [("PORT", "12.5")]))
       else (Normal (VNumber (StringToNumber.parse s)),
             start [("PORT", "12.5")])) /\
  (forall schema result p' v,
     obj_get schema "PORT" = Some PORT_rule ->
     guard schema (start [("PORT", "12.5")]) = (Normal result, p') ->
     obj_get result "PORT" = Some v ->
     v = VUndefined \/ v = VNull \/
     exists n, v = VNumber n /\ isNaN n = false).
Proof.
  apply (number_cast_refuses_NaN "PORT" PORT_rule (start [("PORT", "12.5")])).
  reflexivity.
Defined.

Example number_cast_samples :
  map (fun s => fst (check "PORT" PORT_rule (start [("PORT", s)])))
    ["12.5"; "abc"; "3000"; " 42 "; "0x10"; "12px"]
  = [Normal (VNumber (S754_finite false 7036874417766400 (-49)));
     Exit 1; Normal (VNumber (number_of_Z 3000));
     Normal (VNumber (number_of_Z 42)); Normal (VNumber (number_of_Z 16));
     Exit 1].
Proof. vm_compute. reflexivity. Qed.

(** ** oneOf *)

Lemma SFeqb_refl (x : number) : isNaN x = false -> SFeqb x x = true.
Proof.
  destruct x as [s|s| |s m e]; simpl; try done; unfold SFeqb; simpl.
  - by destruct s.
  - rewrite Z.compare_refl, Pos.compare_cont_refl. by destruct s.
Qed.

Lemma same_value_zero_refl v : same_value_zero v v = true.
Proof.
  destruct v as [| |b|n|s]; simpl; try done.
  - by destruct b.
  - destruct (isNaN n) eqn:E; [done|]. by rewrite SFeqb_refl.
  - apply String.eqb_refl.
Qed.

Lemma includes_member allowed v m :
  In m allowed -> m = v \/ same_value_zero v m = true ->
  includes allowed v = true.
Proof.
  intros Hin Hm. unfold includes. apply existsb_exists. exists m.
  split; [done|]. destruct Hm as [->|?]; [apply same_value_zero_refl | done].
Qed.

(** C6.  The [oneOf] list is compared with the value after the type
    cast, not with the raw string.  With the rule [{type: "number",
    oneOf: [1, 2, 3]}] the raw string "2" is accepted as the number 2,
    although the string "2" is no member of the list, and with [oneOf:
    ["2"]] the same raw string is refused.  In general, for a variable
    set to a non-empty string that passes the cast, the key is accepted
    with the cast value when [includes] finds the cast value in the list,
    and refused with the "must be one of" line otherwise; so a cast value
    equal to a member is never refused. *)
Theorem oneOf_checks_cast_value :
  (check "LEVEL" LEVEL_rule (start [("LEVEL", "2")])
   = (Normal (VNumber (number_of_Z 2)), start [("LEVEL", "2")]) /\
   includes [VNumber (number_of_Z 1); VNumber (number_of_Z 2);
             VNumber (number_of_Z 3)] (VString "2") = false /\
   check "LEVEL" {| type := type_number; required := None;
                    default := VUndefined; oneOf := Some [VString "2"] |}
     (start [("LEVEL", "2")])
   = (Exit 1,
      emit [console_error (red (MustBeOneOf "LEVEL" [VString "2"]))]
        (start [("LEVEL", "2")]))) /\
  forall key rules s allowed p,
    env p !! key = Some s -> s <> "" ->
    oneOf rules = Some allowed ->
    (type rules = type_number -> isNaN (StringToNumber.parse s) = false) ->
    check key rules p
    = (if includes allowed (cast_of (type rules) s)
       then (Normal (cast_of (type rules) s), p)
       else (Exit 1, emit [console_error (red (MustBeOneOf key allowed))] p)) /\
    ((exists m, In m allowed /\
                (m = cast_of (type rules) s \/
                 same_value_zero (cast_of (type rules) s) m = true)) ->
     check key rules p = (Normal (cast_of (type rules) s), p)).
Proof.
  split; [repeat split; vm_compute; reflexivity|].
  intros key rules s allowed p Hget Hs Hone Hnum.
  assert (Hcheck : check key rules p
    = (if includes allowed (cast_of (type rules) s)
       then (Normal (cast_of (type rules) s), p)
       else (Exit 1, emit [console_error (red (MustBeOneOf key allowed))] p))).
  { rewrite (check_present _ _ _ _ Hget Hs).
    destruct rules as [t r d o]; simpl in *. subst o.
    unfold_checks; simpl. destruct t; simpl in *.
    - by destruct (includes allowed (VString s)).
    - rewrite (Hnum eq_refl). simpl.
      by destruct (includes allowed (VNumber (StringToNumber.parse s))).
    - by destruct (includes allowed (VBoolean _)). }
  split; [exact Hcheck|]. intros (m & Hin & Hm).
  by rewrite Hcheck, (includes_member _ _ _ Hin Hm).
Qed.

Lemma oneOf_checks_cast_value_witness :
  check "LEVEL" LEVEL_rule (start [("LEVEL", " 2 ")])
  = (Normal (VNumber (number_of_Z 2)), start [("LEVEL", " 2 ")]) /\
  check "LEVEL" LEVEL_rule (start [("LEVEL", "5")])
  = (Exit 1,
     emit [console_error (red (MustBeOneOf "LEVEL"
             [VNumber (number_of_Z 1); VNumber (number_of_Z 2);
              VNumber (number_of_Z 3)]))] (start [("LEVEL", "5")])).
Proof.
  split.
  - destruct (proj2 oneOf_checks_cast_value "LEVEL" LEVEL_rule " 2 "
                [VNumber (number_of_Z 1); VNumber (number_of_Z 2);
                 VNumber (number_of_Z 3)] (start [("LEVEL", " 2 ")]))
      as [Hcheck _].
    + vm_compute. reflexivity.
    + discriminate.
    + reflexivity.
    + intros _. vm_compute. reflexivity.
    + rewrite Hcheck. vm_compute. reflexivity.
  - destruct (proj2 oneOf_checks_cast_value "LEVEL" LEVEL_rule "5"
                [VNumber (number_of_Z 1); VNumber (number_of_Z 2);
                 VNumber (number_of_Z 3)] (start [("LEVEL", "5")]))
      as [Hcheck _].
    + vm_compute. reflexivity.
    + discriminate.
    + reflexivity.
    + intros _. vm_compute. reflexivity.
    + rewrite Hcheck. vm_compute. reflexivity.
Defined.

(** ** What the result depends on *)

(** Two processes in which every declared variable reads the same, up to
    the difference between unset and empty, get the same completion and
    the same new console lines. *)
Lemma guard_same_readings schema p q :
  (forall k, In k (obj_keys schema) -> same_reading (env q !! k) (env p !! k)) ->
  exists c out,
    guard schema p = (c, emit out p) /\ guard schema q = (c, emit out q).
Proof.
  intros Hsame. unfold guard.
  destruct (for_each_shape schema (for_in schema) [] p) as (c & out & Hrun).
  exists c, out. split.
  - apply Hrun. intros k _. apply same_reading_refl.
  - apply Hrun. intros k Hk. apply Hsame. by apply In_for_in.
Qed.

(** C7.  A variable set to the empty string and the same variable left
    unset lead to the same outcome, for the single key under every rule
    and for the whole run under every schema: the same completion and the
    same console lines. *)
Theorem empty_string_is_missing schema key (e : gmap string string) out :
  let p_empty := {| env := <[key := ""]> e; console := out |} in
  let p_unset := {| env := delete key e; console := out |} in
  (fst (guard schema p_empty) = fst (guard schema p_unset) /\
   console (snd (guard schema p_empty)) = console (snd (guard schema p_unset))) /\
  forall rules,
    fst (check key rules p_empty) = fst (check key rules p_unset) /\
    console (snd (check key rules p_empty))
    = console (snd (check key rules p_unset)).
Proof.
  intros p_empty p_unset.
  assert (Hsame : forall k, same_reading (env p_unset !! k) (env p_empty !! k)).
  { intros k. unfold p_unset, p_empty; simpl.
    destruct (decide (key = k)) as [->|Hne].
    - right. by rewrite lookup_delete_eq, lookup_insert_eq.
    - left. by rewrite lookup_delete_ne, lookup_insert_ne. }
  split.
  - destruct (guard_same_readings schema p_empty p_unset) as (c & o & -> & ->).
    { intros k _. apply Hsame. }
    done.
  - intros rules.
    destruct (check_shape key rules p_empty) as (c & o & Hrun & _).
    rewrite (Hrun p_empty (same_reading_refl _)), (Hrun p_unset (Hsame key)).
    done.
Qed.

(** C8.  [guard] is a function of the schema and of the environment
    alone: it leaves the environment as it was, and two runs in processes
    with the same environment, whatever was on their consoles before,
    complete in the same way and write the same lines.  In particular a
    second call after a first one that returned yields the same object. *)
Theorem guard_deterministic schema p q :
  env p = env q ->
  fst (guard schema p) = fst (guard schema q) /\
  (exists out,
     snd (guard schema p) = emit out p /\ snd (guard schema q) = emit out q) /\
  (forall result p',
     guard schema p = (Normal result, p') ->
     env p' = env p /\ fst (guard schema p') = Normal result).
Proof.
  intros Henv.
  destruct (guard_same_readings schema p q) as (c & out & Hp & Hq).
  { intros k _. rewrite Henv. apply same_reading_refl. }
  rewrite Hp, Hq. split; [done|]. split; [by exists out|].
  intros result p' [= -> <-]. split; [done|].
  destruct (guard_same_readings schema p (emit out p)) as (c' & out' & Hp' & ->).
  { intros k _. apply same_reading_refl. }
  rewrite Hp in Hp'. by injection Hp' as <- _.
Qed.

Lemma guard_deterministic_witness :
  fst (guard quick_start (start [("PORT", "3000"); ("NODE_ENV", "test")]))
  = fst (guard quick_start
           (emit [loaded "HOME"] (start [("PORT", "3000"); ("NODE_ENV", "test")]))).
Proof.
  destruct (guard_deterministic quick_start
              (start [("PORT", "3000"); ("NODE_ENV", "test")])
              (emit [loaded "HOME"]
                 (start [("PORT", "3000"); ("NODE_ENV", "test")])))
    as [Hsame _].
  - reflexivity.
  - exact Hsame.
Defined.

(** C9.  For a missing variable whose rule has a default and a [oneOf]
    list, the default takes the place of the raw value before the type
    cast and the membership check; when the cast default is not in the
    list, the "must be one of" line is written and the process exits with
    status 1, although the environment gave no value. *)
Theorem default_is_cast_and_checked key rules allowed p :
  missing (env p !! key) = true ->
  default rules <> VUndefined ->
  oneOf rules = Some allowed ->
  check key rules p
  = (v ← type_casting key rules (default rules);
     oneOf_validation key rules v;;
     mret v) p /\
  forall v,
    type_casting key rules (default rules) p = (Normal v, p) ->
    includes allowed v = false ->
    check key rules p
    = (Exit 1, emit [console_error (red (MustBeOneOf key allowed))] p) /\
    rejects [(key, rules)] p key = true.
Proof.
  intros Hmiss Hd Hone.
  assert (Hcheck : check key rules p
                   = (v ← type_casting key rules (default rules);
                      oneOf_validation key rules v;;
                      mret v) p).
  { by rewrite (check_missing _ _ _ Hmiss), (settle_default _ _ _ Hd). }
  split; [done|]. intros v Hcast Hnot.
  assert (Hexit : check key rules p
            = (Exit 1, emit [console_error (red (MustBeOneOf key allowed))] p)).
  { rewrite Hcheck. erewrite bind_normal by exact Hcast.
    unfold oneOf_validation. rewrite Hone, Hnot. reflexivity. }
  split; [done|].
  unfold rejects. simpl. rewrite String.eqb_refl, Hexit. reflexivity.
Qed.

Lemma default_is_cast_and_checked_witness :
  check "LOG_LEVEL" LOG_LEVEL_rule (start [])
  = (Exit 1,
     emit [console_error (red (MustBeOneOf "LOG_LEVEL"
             [VString "info"; VString "warn"; VString "error"]))] (start [])) /\
  rejects [("LOG_LEVEL", LOG_LEVEL_rule)] (start []) "LOG_LEVEL" = true.
Proof.
  destruct (default_is_cast_and_checked "LOG_LEVEL" LOG_LEVEL_rule
              [VString "info"; VString "warn"; VString "error"] (start []))
    as [_ Hexit].
  - vm_compute. reflexivity.
  - discriminate.
  - reflexivity.
  - apply (Hexit (VString "verbose")); vm_compute; reflexivity.
Defined.

(** C10.  Variables that the schema does not declare have no influence:
    two processes that agree on every declared variable complete in the
    same way and write the same lines, and every key of the returned
    object is a key of the schema. *)
Theorem undeclared_variables_are_ignored schema p q :
  (forall k, In k (obj_keys schema) -> env p !! k = env q !! k) ->
  fst (guard schema p) = fst (guard schema q) /\
  (exists out,
     snd (guard schema p) = emit out p /\ snd (guard schema q) = emit out q) /\
  (forall result p' k,
     guard schema p = (Normal result, p') ->
     In k (obj_keys result) -> In k (obj_keys schema)).
Proof.
  intros Hagree.
  destruct (guard_same_readings schema p q) as (c & out & Hp & Hq).
  { intros k Hk. left. symmetry. by apply Hagree. }
  rewrite Hp, Hq. split; [done|]. split; [by exists out|].
  intros result p' k Hrun. rewrite <- Hp in Hrun.
  apply guard_normal in Hrun as (_ & _ & Hkeys). apply Hkeys.
Qed.

Lemma undeclared_variables_are_ignored_witness :
  fst (guard quick_start (start [("PORT", "3000"); ("NODE_ENV", "test")]))
  = fst (guard quick_start
           (start [("PORT", "3000"); ("NODE_ENV", "test");
                   ("DATABASE_URL", "postgresql://localhost/mydb")])).
Proof.
  destruct (undeclared_variables_are_ignored quick_start
              (start [("PORT", "3000"); ("NODE_ENV", "test")])
              (start [("PORT", "3000"); ("NODE_ENV", "test");
                      ("DATABASE_URL", "postgresql://localhost/mydb")]))
    as [Hsame _].
  - intros k [<-|[<-|[<-|[]]]]; vm_compute; reflexivity.
  - exact Hsame.
Defined.

(** ** The run as a whole *)

Lemma accepts_of_check schema p k rules v p' :
  obj_get schema k = Some rules ->
  check k rules p = (Normal v, p') ->
  accepts schema p k = true.
Proof. intros Hrules Hcheck. unfold accepts. by rewrite Hrules, Hcheck. Qed.

Lemma obj_get_for_in {A} (o : object A) k :
  In k (for_in o) -> exists a, obj_get o k = Some a.
Proof. intros Hk. by apply obj_get_keys, In_for_in. Qed.

(** X1.  [guard] returns exactly when every key of the schema passes its
    checks, and then the console has got one green line per key, in the
    order of enumeration, and nothing else. *)
Theorem guard_returns_iff_accepted schema p :
  (forall k, In k (obj_keys schema) -> accepts schema p k = true) <->
  exists result,
    guard schema p = (Normal result, emit (map loaded (for_in schema)) p).
Proof.
  split.
  - intros Hall. apply for_each_accepted.
    intros k Hk. apply Hall. by apply In_for_in.
  - intros [result Hrun] k Hk.
    apply for_each_normal in Hrun as (_ & Hin & _).
    destruct (Hin k) as (rules & v & Hrules & Hcheck & _).
    { by apply In_for_in. }
    by eapply accepts_of_check.
Qed.

Lemma for_each_exit_inv schema keys :
  forall result p code p',
    (forall k, In k keys -> exists rules, obj_get schema k = Some rules) ->
    for_each schema keys result p = (Exit code, p') ->
    code = 1 /\
    exists pre k post m,
      keys = pre ++ k :: post /\
      (forall k', In k' pre -> accepts schema p k' = true) /\
      rejects schema p k = true /\
      message_key m = k /\
      p' = emit (map loaded pre ++ [console_error (red m)]) p.
Proof.
  induction keys as [|key keys IH]; intros result p code p' Hrules Hrun.
  - discriminate Hrun.
  - destruct (Hrules key) as [rules Hget]; [by left|].
    simpl in Hrun.
    destruct (check key rules p) as [[v|c] p1] eqn:Hcheck.
    + rewrite (check_normal _ _ _ _ _ Hcheck) in Hcheck.
      erewrite bind_normal in Hrun by (by eapply iteration_normal).
      apply IH in Hrun as (-> & pre & k & post & m & -> & Hpre & Hk & Hm & ->).
      2:{ intros k Hk. apply Hrules. by right. }
      split; [done|]. exists (key :: pre), k, post, m.
      split; [done|]. split.
      { intros k' [<-|Hk']; [by eapply accepts_of_check|].
        rewrite <- (accepts_emit schema [loaded key]). by apply Hpre. }
      split; [by rewrite <- (rejects_emit schema [loaded key])|].
      split; [done|]. by rewrite emit_emit.
    + erewrite bind_exit in Hrun by (by eapply iteration_exit).
      injection Hrun as <- <-.
      destruct (check_exit _ _ _ _ _ Hcheck) as (-> & m & -> & Hm).
      split; [done|]. exists [], key, keys, m.
      split; [done|]. split; [intros k' []|].
      split; [unfold rejects; by rewrite Hget, Hcheck|].
      done.
Qed.

(** X2.  When [guard] ends the process, the status is 1 and the run
    stopped at the first key that fails: the keys enumerated before it
    passed and got their green lines, and the last line is the one red
    line, about the failing key. *)
Theorem guard_exit_first_rejected schema p code p' :
  guard schema p = (Exit code, p') ->
  code = 1 /\
  exists pre k post m,
    for_in schema = pre ++ k :: post /\
    (forall k', In k' pre -> accepts schema p k' = true) /\
    rejects schema p k = true /\
    message_key m = k /\
    p' = emit (map loaded pre ++ [console_error (red m)]) p.
Proof.
  intros Hrun. eapply for_each_exit_inv; [|exact Hrun].
  intros k Hk. by apply obj_get_for_in.
Qed.

Lemma guard_exit_first_rejected_witness :
  exists pre k post m,
    for_in quick_start = pre ++ k :: post /\
    (forall k', In k' pre ->
       accepts quick_start (start [("PORT", "3000"); ("NODE_ENV", "staging")]) k'
       = true) /\
    rejects quick_start (start [("PORT", "3000"); ("NODE_ENV", "staging")]) k
    = true /\
    message_key m = k /\
    emit [loaded "PORT";
          console_error (red (MustBeOneOf "NODE_ENV"
            [VString "development"; VString "production"; VString "test"]))]
      (start [("PORT", "3000"); ("NODE_ENV", "staging")])
    = emit (map loaded pre ++ [console_error (red m)])
        (start [("PORT", "3000"); ("NODE_ENV", "staging")]).
Proof.
  apply (guard_exit_first_rejected quick_start
           (start [("PORT", "3000"); ("NODE_ENV", "staging")]) 1).
  vm_compute. reflexivity.
Defined.

(** ** The order of the keys *)

Lemma insert_index_perm i k l :
  Permutation (insert_index i k l) ((i, k) :: l).
Proof.
  induction l as [|[j k'] l IH]; simpl; [done|].
  destruct (i <? j); [done|].
  rewrite IH. apply perm_swap.
Qed.

Lemma index_keys_perm keys :
  Permutation (map snd (index_keys keys)) (List.filter is_array_index keys).
Proof.
  induction keys as [|k keys IH]; simpl; [done|].
  unfold is_array_index at 1. destruct (array_index k) as [i|].
  - rewrite insert_index_perm. simpl. by rewrite IH.
  - exact IH.
Qed.

Lemma filter_split_perm {A} (f : A -> bool) l :
  Permutation (List.filter f l ++ List.filter (fun x => negb (f x)) l) l.
Proof.
  induction l as [|x l IH]; simpl; [done|].
  destruct (f x); simpl.
  - by rewrite IH.
  - rewrite <- Permutation_middle. by rewrite IH.
Qed.

(** X10.  The loop visits every key of the schema as often as the schema
    holds it: the enumeration is a rearrangement of the keys, so with
    distinct keys each one is visited exactly once. *)
Theorem for_in_permutation {A} (o : object A) :
  Permutation (for_in o) (obj_keys o) /\
  (NoDup (obj_keys o) -> NoDup (for_in o)).
Proof.
  assert (Hperm : Permutation (for_in o) (obj_keys o)).
  { unfold for_in. rewrite index_keys_perm. apply filter_split_perm. }
  split; [done|]. intros Hnd. by rewrite Hperm.
Qed.

Lemma for_in_permutation_witness : NoDup (for_in quick_start).
Proof.
  apply (proj2 (for_in_permutation quick_start)).
  apply (bool_decide_unpack _). vm_compute. reflexivity.
Defined.

Lemma leading_digit_array_index key :
  leading_digit key = false -> array_index key = None.
Proof.
  unfold leading_digit, array_index. destruct key as [|c key]; simpl; [done|].
  by destruct (StringToNumber.digit_in 10 c).
Qed.

Lemma index_keys_none keys :
  (forall k, In k keys -> array_index k = None) -> index_keys keys = [].
Proof.
  induction keys as [|k keys IH]; intros Hnone; simpl; [done|].
  rewrite (Hnone k) by (by left). apply IH. intros k' Hk'. apply Hnone. by right.
Qed.

Lemma filter_all {A} (f : A -> bool) l :
  (forall x, In x l -> f x = true) -> List.filter f l = l.
Proof.
  induction l as [|x l IH]; intros Hall; simpl; [done|].
  rewrite (Hall x) by (by left). f_equal. apply IH.
  intros y Hy. apply Hall. by right.
Qed.

Lemma for_in_no_index {A} (o : object A) :
  (forall k, In k (obj_keys o) -> array_index k = None) ->
  for_in o = obj_keys o.
Proof.
  intros Hnone. unfold for_in. rewrite (index_keys_none _ Hnone). simpl.
  apply filter_all. intros k Hk. unfold is_array_index.
  by rewrite (Hnone k Hk).
Qed.

(** X9.  When no key of the schema starts with a digit, the keys are
    checked in the order in which the schema declares them. *)
Theorem for_in_declaration_order {A} (o : object A) :
  (forall k, In k (obj_keys o) -> leading_digit k = false) ->
  for_in o = obj_keys o.
Proof.
  intros Hkeys. apply for_in_no_index.
  intros k Hk. by apply leading_digit_array_index, Hkeys.
Qed.

Lemma for_in_declaration_order_witness :
  for_in quick_start = ["PORT"; "NODE_ENV"; "DEBUG"].
Proof.
  apply (for_in_declaration_order quick_start).
  intros k [<-|[<-|[<-|[]]]]; reflexivity.
Defined.

Lemma insert_index_sorted i k l :
  StronglySorted (fun x y : Z * string => fst x <= fst y) l ->
  StronglySorted (fun x y : Z * string => fst x <= fst y) (insert_index i k l).
Proof.
  induction 1 as [|[j k'] l Hl IH Hall]; simpl.
  - repeat constructor.
  - destruct (i <? j) eqn:E.
    + apply Z.ltb_lt in E. constructor; [by constructor|].
      constructor; [simpl; lia|].
      eapply List.Forall_impl; [|exact Hall]. intros [j' k'']; simpl. lia.
    + apply Z.ltb_ge in E. constructor; [exact IH|].
      apply List.Forall_forall. intros x Hx.
      apply In_insert_index in Hx as [->|Hx]; [done|].
      rewrite List.Forall_forall in Hall. by apply Hall.
Qed.

Lemma index_keys_sorted keys :
  StronglySorted (fun x y : Z * string => fst x <= fst y) (index_keys keys).
Proof.
  induction keys as [|k keys IH]; simpl; [constructor|].
  destruct (array_index k); [by apply insert_index_sorted | exact IH].
Qed.

Lemma index_keys_sound keys i k :
  In (i, k) (index_keys keys) -> array_index k = Some i.
Proof. intros H. by apply In_index_keys in H as [_ ?]. Qed.

Lemma sorted_index_before (l : list (Z * string)) :
  StronglySorted (fun x y : Z * string => fst x <= fst y) l ->
  (forall i k, In (i, k) l -> array_index k = Some i) ->
  StronglySorted index_before (map snd l).
Proof.
  induction 1 as [|[i k] l Hl IH Hall]; intros Hsound; simpl; [constructor|].
  constructor.
  - apply IH. intros j k' Hin. apply Hsound. by right.
  - apply List.Forall_forall. intros k' Hk'.
    apply in_map_iff in Hk' as [[j k''] [<- Hin]].
    rewrite List.Forall_forall in Hall. specialize (Hall _ Hin). simpl in *.
    exists i, j. split; [apply Hsound; by left|].
    split; [apply Hsound; by right | done].
Qed.

(** X11.  Keys that are array indices (canonical decimal numbers below
    2^32 - 1) are visited first, in ascending numeric order whatever the
    order of declaration; the other keys follow in the order of
    declaration. *)
Theorem for_in_indices_first {A} (o : object A) :
  exists indices,
    for_in o
    = indices ++ List.filter (fun k => negb (is_array_index k)) (obj_keys o) /\
    StronglySorted index_before indices /\
    forall k, In k indices <-> In k (obj_keys o) /\ is_array_index k = true.
Proof.
  exists (map snd (index_keys (obj_keys o))). split; [done|]. split.
  - apply sorted_index_before; [apply index_keys_sorted|].
    intros i k. apply index_keys_sound.
  - intros k. rewrite in_map_iff. unfold is_array_index. split.
    + intros [[i k'] [Hk Hin]]. simpl in Hk. subst k'.
      apply In_index_keys in Hin as [? ->]. done.
    + intros [Hin Hidx]. destruct (array_index k) as [i|] eqn:E; [|done].
      exists (i, k). split; [done|]. by apply In_index_keys.
Qed.

(** *** The keys of the result *)

Lemma obj_keys_set_new {A} (o : object A) k a :
  ~ In k (obj_keys o) -> obj_keys (obj_set o k a) = obj_keys o ++ [k].
Proof.
  induction o as [|[k' b] o IH]; simpl; [done|]. intros Hnot.
  destruct (String.eqb_spec k' k) as [->|Hne]; [tauto|].
  simpl. f_equal. apply IH. tauto.
Qed.

Lemma for_each_keys schema keys :
  forall result p r' p',
    NoDup keys ->
    (forall k, In k keys -> ~ In k (obj_keys result)) ->
    for_each schema keys result p = (Normal r', p') ->
    obj_keys r' = obj_keys result ++ keys.
Proof.
  induction keys as [|key keys IH]; intros result p r' p' Hnd Hfresh Hrun.
  - simpl in Hrun. injection Hrun as <- _. by rewrite app_nil_r.
  - simpl in Hrun. apply NoDup_cons in Hnd as [Hkey Hnd].
    destruct (obj_get schema key) as [rules|] eqn:Hrules.
    2:{ erewrite bind_exit in Hrun by (by apply iteration_no_rules). done. }
    destruct (check key rules p) as [[v|code] p1] eqn:Hcheck.
    2:{ erewrite bind_exit in Hrun by (by eapply iteration_exit). done. }
    rewrite (check_normal _ _ _ _ _ Hcheck) in Hcheck.
    erewrite bind_normal in Hrun by (by eapply iteration_normal).
    apply IH in Hrun; [|done|].
    + rewrite Hrun, obj_keys_set_new by (apply Hfresh; by left).
      by rewrite <- app_assoc.
    + intros k Hk Hin. apply obj_keys_set in Hin as [->|Hin].
      * apply Hkey. by apply list_elem_of_In.
      * eapply Hfresh; [by right | done].
Qed.

(** X3.  When the keys of the schema are distinct and [guard] returns,
    the returned object has exactly the keys of the schema, each once, in
    the order in which the loop visited them. *)
Theorem guard_result_keys schema p result p' :
  NoDup (obj_keys schema) ->
  guard schema p = (Normal result, p') ->
  obj_keys result = for_in schema.
Proof.
  intros Hnd Hrun.
  apply for_each_keys in Hrun; [done| |by intros k _ []].
  assert (Hperm : Permutation (for_in schema) (obj_keys schema)).
  { unfold for_in. rewrite index_keys_perm. apply filter_split_perm. }
  by rewrite Hperm.
Qed.

Lemma guard_result_keys_witness :
  obj_keys [("PORT", VNumber (number_of_Z 3000)); ("NODE_ENV", VString "test");
            ("DEBUG", VBoolean false)]
  = for_in quick_start.
Proof.
  apply (guard_result_keys quick_start
           (start [("PORT", "3000"); ("NODE_ENV", "test")])
           [("PORT", VNumber (number_of_Z 3000)); ("NODE_ENV", VString "test");
            ("DEBUG", VBoolean false)]
           (emit [loaded "PORT"; loaded "NODE_ENV"; loaded "DEBUG"]
              (start [("PORT", "3000"); ("NODE_ENV", "test")]))).
  - apply (bool_decide_unpack _). vm_compute. reflexivity.
  - vm_compute. reflexivity.
Defined.

(** ** What a returned object holds *)

Lemma settle_present_normal key rules s p v p' :
  s <> "" ->
  settle key rules (VString s) p = (Normal v, p') ->
  v = cast_of (type rules) s /\
  (type rules = type_number -> isNaN (StringToNumber.parse s) = false).
Proof.
  intros Hs. rewrite (settle_present _ _ _ _ Hs).
  unfold_checks. destruct rules as [t r d o]; simpl.
  destruct t; simpl; split_branches; intros [= <- _]; done.
Qed.

(** X4.  When [guard] returns, a key whose variable is set to a
    non-empty string holds that string cast by its declared type: the
    string itself for "string", [Number] of it (which is not NaN) for
    "number", and for "boolean" whether it is "true" or "1".  This is the
    kind that index.d.ts declares for the key. *)
Theorem present_value_is_cast schema p result p' key rules s :
  guard schema p = (Normal result, p') ->
  obj_get schema key = Some rules ->
  env p !! key = Some s -> s <> "" ->
  obj_get result key = Some (cast_of (type rules) s) /\
  (type rules = type_number -> isNaN (StringToNumber.parse s) = false).
Proof.
  intros Hrun Hrules Hget Hs.
  apply guard_normal in Hrun as (_ & Hin & _).
  destruct (Hin key rules Hrules) as (v & Hcheck & Hv).
  rewrite check_settle, Hget in Hcheck.
  destruct (settle_present_normal _ _ _ _ _ _ Hs Hcheck) as [-> Hnum]. done.
Qed.

Lemma present_value_is_cast_witness :
  obj_get [("PORT", VNumber (number_of_Z 3000)); ("NODE_ENV", VString "test");
           ("DEBUG", VBoolean true)] "DEBUG"
  = Some (VBoolean true).
Proof.
  destruct (present_value_is_cast quick_start
              (start [("PORT", "3000"); ("NODE_ENV", "test"); ("DEBUG", "1")])
              [("PORT", VNumber (number_of_Z 3000)); ("NODE_ENV", VString "test");
               ("DEBUG", VBoolean true)]
              (emit [loaded "PORT"; loaded "NODE_ENV"; loaded "DEBUG"]
                 (start [("PORT", "3000"); ("NODE_ENV", "test"); ("DEBUG", "1")]))
              "DEBUG" DEBUG_rule "1") as [Hget _].
  - vm_compute. reflexivity.
  - reflexivity.
  - vm_compute. reflexivity.
  - discriminate.
  - exact Hget.
Defined.

Lemma settle_normal_oneOf key rules v0 p v p' allowed :
  oneOf rules = Some allowed ->
  settle key rules v0 p = (Normal v, p') ->
  includes allowed v = true.
Proof.
  destruct rules as [t r d o]; simpl. intros ->.
  unfold_checks; simpl. split_branches; intros [= <- _].
  all: match goal with
       | H : negb (includes _ _) = false |- _ => by apply negb_false_iff in H
       end.
Qed.

(** X5.  When [guard] returns, every key whose rule has a [oneOf] list
    holds a member of that list, whether the value came from the
    environment or from the default. *)
Theorem oneOf_holds_of_result schema p result p' key rules allowed :
  guard schema p = (Normal result, p') ->
  obj_get schema key = Some rules ->
  oneOf rules = Some allowed ->
  exists v, obj_get result key = Some v /\ includes allowed v = true.
Proof.
  intros Hrun Hrules Hone.
  apply guard_normal in Hrun as (_ & Hin & _).
  destruct (Hin key rules Hrules) as (v & Hcheck & Hv).
  exists v. split; [done|]. rewrite check_settle in Hcheck.
  by eapply settle_normal_oneOf.
Qed.

Lemma oneOf_holds_of_result_witness :
  exists v,
    obj_get [("PORT", VNumber (number_of_Z 3000)); ("NODE_ENV", VString "test");
             ("DEBUG", VBoolean false)] "NODE_ENV" = Some v /\
    includes [VString "development"; VString "production"; VString "test"] v
    = true.
Proof.
  apply (oneOf_holds_of_result quick_start
           (start [("PORT", "3000"); ("NODE_ENV", "test")])
           [("PORT", VNumber (number_of_Z 3000)); ("NODE_ENV", VString "test");
            ("DEBUG", VBoolean false)]
           (emit [loaded "PORT"; loaded "NODE_ENV"; loaded "DEBUG"]
              (start [("PORT", "3000"); ("NODE_ENV", "test")]))
           "NODE_ENV" NODE_ENV_rule).
  - vm_compute. reflexivity.
  - reflexivity.
  - reflexivity.
Defined.

(** ** The missing check *)

Lemma strict_equals_undefined_true v :
  strict_equals v VUndefined = true <-> v = VUndefined.
Proof. destruct v; simpl; split; congruence. Qed.

Lemma missing_raw_value raw :
  missing raw
  = loosely_null (raw_value raw) || strict_equals (raw_value raw) (VString "").
Proof. by destruct raw. Qed.

(** X6.  The line "Missing required environment variable" is written for
    a key, and the process ended, exactly when the variable is unset or
    empty, [required] is true and the rule has no default. *)
Theorem missing_required_iff key rules p :
  check key rules p
  = (Exit 1, emit [console_error (red (MissingRequired key))] p) <->
  missing (env p !! key) = true /\
  truthy (required rules) = true /\
  default rules = VUndefined.
Proof.
  rewrite check_settle, missing_raw_value.
  destruct rules as [t r d o]; simpl. split.
  - unfold_checks; simpl.
    destruct (loosely_null _ || strict_equals _ _) eqn:Hmiss.
    + destruct (truthy r && strict_equals d VUndefined) eqn:Hreq.
      * intros _. apply andb_true_iff in Hreq as [? Hd].
        by apply strict_equals_undefined_true in Hd.
      * simpl. split_branches; intros [= H]; apply app_inv_head in H;
          discriminate H.
    + simpl. split_branches; intros [= H]; apply app_inv_head in H;
        discriminate H.
  - intros (Hmiss & Hreq & ->). unfold_checks; simpl.
    by rewrite Hmiss, Hreq.
Qed.

(** X7.  [required] is looked at only for a variable that is missing
    and has no default: otherwise the checks of the key come out the same
    whatever [required] says. *)
Theorem required_only_for_missing key rules r p :
  missing (env p !! key) = false \/ default rules <> VUndefined ->
  check key {| type := type rules; required := r;
               default := default rules; oneOf := oneOf rules |} p
  = check key rules p.
Proof.
  rewrite !check_settle, missing_raw_value.
  destruct rules as [t r0 d o]; simpl. intros Hcase.
  unfold settle, missing_check; simpl.
  destruct Hcase as [->|Hd]; [done|].
  apply strict_equals_undefined in Hd. by rewrite Hd, !andb_false_r.
Qed.

Lemma required_only_for_missing_witness :
  check "PORT" {| type := type_number; required := None;
                  default := VUndefined; oneOf := None |}
    (start [("PORT", "3000")])
  = check "PORT" PORT_rule (start [("PORT", "3000")]).
Proof.
  apply (required_only_for_missing "PORT" PORT_rule None
           (start [("PORT", "3000")])).
  left. vm_compute. reflexivity.
Defined.

(** ** The membership check *)

Lemma settle_empty_oneOf key rules v p :
  oneOf rules = Some [] -> completes (fst (settle key rules v p)) = false.
Proof.
  destruct rules as [t r d o]; simpl. intros ->.
  unfold_checks; simpl. by split_branches.
Qed.

(** X8.  An empty [oneOf] list is still a list: a key whose rule has
    [oneOf: []] fails in every environment, so [guard] never returns for a
    schema that holds such a key. *)
Theorem empty_oneOf_always_exits schema key rules p :
  obj_get schema key = Some rules ->
  oneOf rules = Some [] ->
  rejects schema p key = true /\
  exists p', guard schema p = (Exit 1, p').
Proof.
  intros Hrules Hone.
  assert (Hrej : completes (fst (check key rules p)) = false).
  { rewrite check_settle. by apply settle_empty_oneOf. }
  split; [unfold rejects; by rewrite Hrules, Hrej|].
  destruct (guard schema p) as [[result|code] p'] eqn:Hrun.
  - apply guard_normal in Hrun as (_ & Hin & _).
    destruct (Hin key rules Hrules) as (v & Hcheck & _).
    by rewrite Hcheck in Hrej.
  - exists p'. apply for_each_exit_inv in Hrun as [-> _]; [done|].
    intros k Hk. by apply obj_get_for_in.
Qed.

Lemma empty_oneOf_always_exits_witness :
  exists p',
    guard [("MODE", {| type := type_string; required := None;
                       default := VString "fast"; oneOf := Some [] |})]
      (start [("MODE", "fast")]) = (Exit 1, p').
Proof.
  apply (empty_oneOf_always_exits
           [("MODE", {| type := type_string; required := None;
                        default := VString "fast"; oneOf := Some [] |})]
           "MODE" {| type := type_string; required := None;
                     default := VString "fast"; oneOf := Some [] |}
           (start [("MODE", "fast")])); reflexivity.
Defined.

(** X15.  The membership check also runs on a variable that is missing,
    optional and without default: its value is undefined, and unless the
    list holds undefined the line "must be one of" is written and the
    process ends with status 1. *)
Theorem optional_missing_oneOf_exits key rules allowed p :
  missing (env p !! key) = true ->
  truthy (required rules) = false ->
  default rules = VUndefined ->
  oneOf rules = Some allowed ->
  includes allowed VUndefined = false ->
  check key rules p
  = (Exit 1, emit [console_error (red (MustBeOneOf key allowed))] p).
Proof.
  intros Hmiss Hreq Hd Hone Hnot. rewrite (check_missing _ _ _ Hmiss).
  destruct rules as [t r d o]; simpl in *. subst d o.
  unfold_checks; simpl. rewrite Hreq; simpl.
  destruct t; simpl; by rewrite Hnot.
Qed.

Lemma optional_missing_oneOf_exits_witness :
  check "NODE_ENV"
    {| type := type_string; required := None; default := VUndefined;
       oneOf := Some [VString "dev"; VString "prod"] |} (start [])
  = (Exit 1,
     emit [console_error (red (MustBeOneOf "NODE_ENV"
             [VString "dev"; VString "prod"]))] (start [])).
Proof.
  apply (optional_missing_oneOf_exits "NODE_ENV"
           {| type := type_string; required := None; default := VUndefined;
              oneOf := Some [VString "dev"; VString "prod"] |}
           [VString "dev"; VString "prod"] (start [])); reflexivity.
Defined.

(** X16.  The Boolean cast is applied to a default as well, and it
    compares with the strings "true" and "1": for a missing variable of
    type "boolean" whose default is a boolean, the value that passes on
    is [false], also when the default is [true]. *)
Theorem boolean_default_is_false key rules b p :
  missing (env p !! key) = true ->
  type rules = type_boolean ->
  default rules = VBoolean b ->
  (oneOf rules = None -> check key rules p = (Normal (VBoolean false), p)) /\
  (forall v p', check key rules p = (Normal v, p') -> v = VBoolean false).
Proof.
  intros Hmiss Ht Hd. rewrite (check_missing _ _ _ Hmiss).
  destruct rules as [t r d o]; simpl in *. subst t d.
  unfold_checks; simpl. rewrite andb_false_r. simpl. split.
  - by intros ->.
  - intros v p'. split_branches; by intros [= <- _].
Qed.

Lemma boolean_default_is_false_witness :
  check "ENABLE_CACHING"
    {| type := type_boolean; required := None;
       default := VBoolean true; oneOf := None |} (start [])
  = (Normal (VBoolean false), start []).
Proof.
  destruct (boolean_default_is_false "ENABLE_CACHING"
              {| type := type_boolean; required := None;
                 default := VBoolean true; oneOf := None |}
              true (start [])) as [Hcheck _].
  - vm_compute. reflexivity.
  - reflexivity.
  - reflexivity.
  - exact (Hcheck eq_refl).
Defined.

(** ** Schemas put together *)

Lemma for_each_app schema keys1 keys2 :
  forall result p,
    for_each schema (keys1 ++ keys2) result p
    = match for_each schema keys1 result p with
      | (Normal result1, p1) => for_each schema keys2 result1 p1
      | (Exit code, p1) => (Exit code, p1)
      end.
Proof.
  induction keys1 as [|key keys1 IH]; intros result p; simpl; [done|].
  unfold mbind, M_bind.
  destruct (iteration schema key result p) as [[result1|code] p1]; [apply IH|done].
Qed.

Lemma iteration_ext schema schema' key :
  obj_get schema key = obj_get schema' key ->
  iteration schema key = iteration schema' key.
Proof. unfold iteration. by intros ->. Qed.

Lemma for_each_ext schema schema' keys :
  forall result p,
    (forall k, In k keys -> obj_get schema k = obj_get schema' k) ->
    for_each schema keys result p = for_each schema' keys result p.
Proof.
  induction keys as [|key keys IH]; intros result p Hsame; simpl; [done|].
  unfold mbind, M_bind.
  rewrite (iteration_ext schema schema' key) by (apply Hsame; by left).
  destruct (iteration schema' key result p) as [[result1|code] p1]; [|done].
  apply IH. intros k Hk. apply Hsame. by right.
Qed.

Lemma obj_get_app {A} (o1 o2 : object A) k :
  obj_get (o1 ++ o2) k
  = match obj_get o1 k with
    | Some a => Some a
    | None => obj_get o2 k
    end.
Proof.
  induction o1 as [|[k' a] o1 IH]; simpl; [done|].
  by destruct (String.eqb k' k).
Qed.

Lemma obj_get_None {A} (o : object A) k :
  ~ In k (obj_keys o) -> obj_get o k = None.
Proof.
  intros Hnot. destruct (obj_get o k) as [a|] eqn:E; [|done].
  exfalso. apply Hnot, obj_get_keys. eauto.
Qed.

Lemma obj_set_app_r {A} (o1 o2 : object A) k a :
  ~ In k (obj_keys o1) -> obj_set (o1 ++ o2) k a = o1 ++ obj_set o2 k a.
Proof.
  induction o1 as [|[k' b] o1 IH]; simpl; [done|]. intros Hnot.
  destruct (String.eqb_spec k' k) as [->|Hne]; [tauto|].
  f_equal. apply IH. tauto.
Qed.

Lemma iteration_prefix schema key result1 result p :
  ~ In key (obj_keys result1) ->
  iteration schema key (result1 ++ result) p
  = match iteration schema key result p with
    | (Normal result', p') => (Normal (result1 ++ result'), p')
    | (Exit code, p') => (Exit code, p')
    end.
Proof.
  intros Hfresh. unfold iteration.
  destruct (obj_get schema key) as [rules|]; [|done].
  unfold mbind, M_bind, write, mret, M_ret.
  destruct (check key rules p) as [[v|code] p1]; [|done].
  by rewrite obj_set_app_r.
Qed.

Lemma for_each_prefix schema keys result1 :
  forall result p,
    (forall k, In k keys -> ~ In k (obj_keys result1)) ->
    for_each schema keys (result1 ++ result) p
    = match for_each schema keys result p with
      | (Normal result', p') => (Normal (result1 ++ result'), p')
      | (Exit code, p') => (Exit code, p')
      end.
Proof.
  induction keys as [|key keys IH]; intros result p Hfresh; simpl; [done|].
  unfold mbind, M_bind.
  rewrite iteration_prefix by (apply Hfresh; by left).
  destruct (iteration schema key result p) as [[result'|code] p1]; [|done].
  apply IH. intros k Hk. apply Hfresh. by right.
Qed.

(** X12.  For a schema made of two parts with distinct keys, none of
    which starts with a digit, [guard] on the whole is [guard] on the
    first part followed, in the process it leaves, by [guard] on the
    second part: an exit of the first part is the exit of the whole, and
    otherwise the returned object is the two objects put together. *)
Theorem guard_app schema1 schema2 p :
  NoDup (obj_keys (schema1 ++ schema2)) ->
  (forall k, In k (obj_keys (schema1 ++ schema2)) -> leading_digit k = false) ->
  guard (schema1 ++ schema2) p
  = match guard schema1 p with
    | (Normal result1, p1) =>
        match guard schema2 p1 with
        | (Normal result2, p2) => (Normal (result1 ++ result2), p2)
        | (Exit code, p2) => (Exit code, p2)
        end
    | (Exit code, p1) => (Exit code, p1)
    end.
Proof.
  intros Hnd Hkeys. unfold obj_keys in Hnd, Hkeys. rewrite map_app in Hnd, Hkeys.
  fold (obj_keys schema1) in Hnd, Hkeys. fold (obj_keys schema2) in Hnd, Hkeys.
  apply NoDup_app in Hnd as (Hnd1 & Hdisj & Hnd2).
  assert (Hnone : forall k, In k (obj_keys schema1 ++ obj_keys schema2) ->
                            array_index k = None).
  { intros k Hk. by apply leading_digit_array_index, Hkeys. }
  unfold guard.
  rewrite (for_in_no_index (schema1 ++ schema2)), (for_in_no_index schema1),
    (for_in_no_index schema2).
  2:{ intros k Hk. apply Hnone, in_app_iff. by right. }
  2:{ intros k Hk. apply Hnone, in_app_iff. by left. }
  2:{ intros k Hk. apply Hnone. unfold obj_keys in *. by rewrite map_app in Hk. }
  unfold obj_keys at 1. rewrite map_app.
  fold (obj_keys schema1). fold (obj_keys schema2).
  rewrite for_each_app.
  rewrite (for_each_ext (schema1 ++ schema2) schema1 (obj_keys schema1)).
  2:{ intros k Hk. rewrite obj_get_app.
      apply obj_get_keys in Hk as [a ->]. done. }
  destruct (for_each schema1 (obj_keys schema1) [] p)
    as [[result1|code] p1] eqn:Hrun1; [|done].
  rewrite (for_each_ext (schema1 ++ schema2) schema2 (obj_keys schema2)).
  2:{ intros k Hk. rewrite obj_get_app, obj_get_None; [done|].
      intros Hk1. apply (Hdisj k); by apply list_elem_of_In. }
  apply for_each_keys in Hrun1; [|done|by intros k _ []]. simpl in Hrun1.
  rewrite <- (app_nil_r result1) at 1. apply for_each_prefix.
  intros k Hk Hk1. rewrite Hrun1 in Hk1.
  apply (Hdisj k); by apply list_elem_of_In.
Qed.

Lemma guard_app_witness :
  guard ([("PORT", PORT_rule)] ++ [("NODE_ENV", NODE_ENV_rule)])
    (start [("PORT", "3000"); ("NODE_ENV", "test")])
  = (Normal ([("PORT", VNumber (number_of_Z 3000))]
             ++ [("NODE_ENV", VString "test")]),
     emit [loaded "NODE_ENV"]
       (emit [loaded "PORT"] (start [("PORT", "3000"); ("NODE_ENV", "test")]))).
Proof.
  rewrite (guard_app [("PORT", PORT_rule)] [("NODE_ENV", NODE_ENV_rule)]
             (start [("PORT", "3000"); ("NODE_ENV", "test")])).
  - vm_compute. reflexivity.
  - apply (bool_decide_unpack _). vm_compute. reflexivity.
  - intros k [<-|[<-|[]]]; reflexivity.
Defined.

(** ** Numbers read from strings *)

Lemma strip_blank c l :
  blank c = true ->
  StringToNumber.strip_any StringToNumber.StrWhiteSpaceChar (c :: l) = Some l.
Proof.
  unfold blank. rewrite !orb_true_iff, !Ascii.eqb_eq.
  intros [[[[[->| ->]| ->]| ->]| ->]| ->]; reflexivity.
Qed.

Lemma StrWhiteSpace_opt_blank c l :
  blank c = true ->
  StringToNumber.StrWhiteSpace_opt (c :: l) = StringToNumber.StrWhiteSpace_opt l.
Proof.
  intros Hc. unfold StringToNumber.StrWhiteSpace_opt.
  cbn [List.length StringToNumber.skip_white_space].
  by rewrite (strip_blank _ _ Hc).
Qed.

(** X17.  White space of one byte (TAB, LF, VT, FF, CR, SP) in front of a
    string does not change the number it is read as. *)
Theorem leading_blank_ignored c s :
  blank c = true ->
  StringToNumber.parse (String c s) = StringToNumber.parse s.
Proof.
  intros Hc. unfold StringToNumber.parse. simpl list_ascii_of_string.
  by rewrite (StrWhiteSpace_opt_blank _ _ Hc).
Qed.

Lemma leading_blank_ignored_witness :
  StringToNumber.parse " 42" = StringToNumber.parse "42".
Proof. apply (leading_blank_ignored " " "42"). reflexivity. Defined.

Lemma blank_string_zero s :
  forallb blank (list_ascii_of_string s) = true ->
  StringToNumber.parse s = S754_zero false.
Proof.
  induction s as [|c s IH]; simpl; [done|].
  intros H. apply andb_true_iff in H as [Hc Hs].
  unfold StringToNumber.parse in *. simpl list_ascii_of_string.
  rewrite (StrWhiteSpace_opt_blank _ _ Hc). by apply IH.
Qed.

(** X13.  A Number-typed variable that is set to nothing but white space
    (TAB, LF, VT, FF, CR, SP; at least one) is not missing and not
    refused: [Number] reads it as 0, and without a [oneOf] list the key is
    accepted with the value 0. *)
Theorem blank_number_is_zero key rules s p :
  type rules = type_number ->
  oneOf rules = None ->
  env p !! key = Some s -> s <> "" ->
  forallb blank (list_ascii_of_string s) = true ->
  check key rules p = (Normal (VNumber (S754_zero false)), p).
Proof.
  intros Ht Hone Hget Hs Hblank.
  rewrite (check_present _ _ _ _ Hget Hs).
  destruct rules as [t r d o]; simpl in *. subst t o.
  unfold_checks; simpl. by rewrite (blank_string_zero _ Hblank).
Qed.

Lemma blank_number_is_zero_witness :
  check "PORT" PORT_rule (start [("PORT", "  ")])
  = (Normal (VNumber (S754_zero false)), start [("PORT", "  ")]).
Proof.
  apply (blank_number_is_zero "PORT" PORT_rule "  " (start [("PORT", "  ")]));
    try reflexivity.
  discriminate.
Defined.

(** *** Decimal integers *)

Lemma decimal_digit_facts c :
  decimal_digit c ->
  (forall l, StringToNumber.strip_any StringToNumber.StrWhiteSpaceChar (c :: l)
             = None) /\
  (forall l, StringToNumber.strip_prefix (list_ascii_of_string "Infinity") (c :: l)
             = None) /\
  StringToNumber.radix_of_prefix c = None /\
  (forall l, StringToNumber.StrDecimalLiteral (c :: l)
             = StringToNumber.StrUnsignedDecimalLiteral false (c :: l)).
Proof.
  unfold decimal_digit. simpl.
  intros [<-|[<-|[<-|[<-|[<-|[<-|[<-|[<-|[<-|[<-|[]]]]]]]]]]]; done.
Qed.

Lemma uint_digits d :
  Forall decimal_digit (list_ascii_of_string (NilEmpty.string_of_uint d)).
Proof.
  induction d; simpl; constructor; try done; unfold decimal_digit; simpl; tauto.
Qed.

Lemma read_digits_uint d :
  forall acc n,
    StringToNumber.read_digits 10 acc n
      (list_ascii_of_string (NilEmpty.string_of_uint d))
    = (uint_acc d acc, n + Z.of_nat (Decimal.nb_digits d), []).
Proof.
  induction d; intros acc n; simpl StringToNumber.read_digits;
    simpl uint_acc; simpl Decimal.nb_digits;
    [f_equal; f_equal; lia|..];
    rewrite IHd; f_equal; f_equal; lia.
Qed.

Lemma uint_acc_pos d :
  forall acc, uint_acc d (Zpos acc) = Zpos (Pos.of_uint_acc d acc).
Proof.
  induction d; intros acc; simpl; [done|..];
    match goal with
    | |- uint_acc _ ?z = _ =>
        match goal with
        | |- _ = Zpos (Pos.of_uint_acc _ ?q) =>
            replace z with (Zpos q) by lia; apply IHd
        end
    end.
Qed.

Lemma uint_acc_of_uint d : uint_acc d 0 = Z.of_uint d.
Proof.
  unfold Z.of_uint.
  induction d; simpl; try done; try exact IHd; apply uint_acc_pos.
Qed.

Lemma decimal_value_integer m :
  0 <= m -> StringToNumber.decimal_value false m 0 = number_of_Z m.
Proof.
  intros Hm. destruct m as [|q|q]; [done| |lia].
  unfold StringToNumber.decimal_value, number_of_Z. simpl.
  by rewrite Pos.mul_1_r.
Qed.

Lemma nb_digits_pos d : d <> Decimal.Nil -> (0 < Decimal.nb_digits d)%nat.
Proof. destruct d; simpl; [done|lia..]. Qed.

Lemma parse_digits l v n :
  l <> [] ->
  Forall decimal_digit l ->
  StringToNumber.read_digits 10 0 0 l = (v, n, []) ->
  0 < n -> 0 <= v ->
  StringToNumber.StrNumericLiteral l = Some (number_of_Z v, []).
Proof.
  intros Hl Hdigits Hread Hn Hv.
  destruct l as [|c l]; [done|].
  apply Forall_cons in Hdigits as [Hc Hrest].
  destruct (decimal_digit_facts c Hc) as (_ & Hinf & _ & Hdec).
  assert (Hnum : StringToNumber.StrNumericLiteral (c :: l)
                 = StringToNumber.StrDecimalLiteral (c :: l)).
  { unfold StringToNumber.StrNumericLiteral.
    destruct l as [|x r]; [by repeat case_match|].
    apply Forall_cons in Hrest as [Hx _].
    destruct (decimal_digit_facts x Hx) as (_ & _ & -> & _).
    by repeat case_match. }
  rewrite Hnum, Hdec. unfold StringToNumber.StrUnsignedDecimalLiteral.
  rewrite Hinf, Hread. simpl.
  replace (n + 0 =? 0) with false by (symmetry; apply Z.eqb_neq; lia).
  by rewrite decimal_value_integer.
Qed.

(** X14.  A decimal integer is read as that integer: for every non-empty
    sequence of decimal digits, [Number] of its text is the number of the
    integer it writes (rounded to the nearest double), and so is [Number]
    of the printed form of every natural number. *)
Theorem parse_decimal_integer :
  (forall d, d <> Decimal.Nil ->
     StringToNumber.parse (NilEmpty.string_of_uint d) = number_of_Z (Z.of_uint d)) /\
  (forall n : N,
     StringToNumber.parse (NilZero.string_of_uint (N.to_uint n))
     = number_of_Z (Z.of_N n)).
Proof.
  assert (Hd : forall d, d <> Decimal.Nil ->
            StringToNumber.parse (NilEmpty.string_of_uint d)
            = number_of_Z (Z.of_uint d)).
  { intros d Hnil. unfold StringToNumber.parse.
    pose proof (uint_digits d) as Hdigits.
    pose proof (read_digits_uint d 0 0) as Hread.
    destruct (list_ascii_of_string (NilEmpty.string_of_uint d)) as [|c l] eqn:E.
    { destruct d; simpl in E; done. }
    assert (Hws : StringToNumber.StrWhiteSpace_opt (c :: l) = c :: l).
    { apply Forall_cons in Hdigits as [Hc _].
      destruct (decimal_digit_facts c Hc) as (Hstrip & _).
      unfold StringToNumber.StrWhiteSpace_opt.
      cbn [List.length StringToNumber.skip_white_space].
      by rewrite Hstrip. }
    rewrite Hws.
    erewrite parse_digits; [| done | exact Hdigits | exact Hread | |].
    - by rewrite uint_acc_of_uint.
    - pose proof (nb_digits_pos d Hnil). lia.
    - rewrite uint_acc_of_uint. unfold Z.of_uint. lia. }
  split; [exact Hd|]. intros n.
  assert (Hnil : N.to_uint n <> Decimal.Nil).
  { destruct n; simpl; [done|apply DecimalPos.Unsigned.to_uint_nonnil]. }
  replace (NilZero.string_of_uint (N.to_uint n))
    with (NilEmpty.string_of_uint (N.to_uint n))
    by (unfold NilZero.string_of_uint; by destruct (N.to_uint n)).
  rewrite (Hd _ Hnil). unfold Z.of_uint.
  change (Pos.of_uint (N.to_uint n)) with (N.of_uint (N.to_uint n)).
  by rewrite DecimalN.Unsigned.of_to.
Qed.

Lemma parse_decimal_integer_witness :
  StringToNumber.parse "3000" = number_of_Z 3000.
Proof.
  apply (proj1 parse_decimal_integer
           (Decimal.D3 (Decimal.D0 (Decimal.D0 (Decimal.D0 Decimal.Nil))))).
  discriminate.
Defined.

(** ** When a set variable passes *)

(** X18.  A variable that is set to a non-empty string passes the checks
    of its key exactly when its cast is not NaN, for a Number-typed key,
    and is in the [oneOf] list, when the rule has one; it then passes
    without a line on the console, and [required] and [default] play no
    part. *)
Theorem present_accepted_iff key rules s p :
  env p !! key = Some s -> s <> "" ->
  (check key rules p = (Normal (cast_of (type rules) s), p) <->
   (type rules = type_number -> isNaN (StringToNumber.parse s) = false) /\
   (forall allowed, oneOf rules = Some allowed ->
                    includes allowed (cast_of (type rules) s) = true)) /\
  (completes (fst (check key rules p)) = true <->
   check key rules p = (Normal (cast_of (type rules) s), p)).
Proof.
  intros Hget Hs.
  assert (Hiff : check key rules p = (Normal (cast_of (type rules) s), p) <->
    (type rules = type_number -> isNaN (StringToNumber.parse s) = false) /\
    (forall allowed, oneOf rules = Some allowed ->
                     includes allowed (cast_of (type rules) s) = true)).
  { split.
    - intros Hcheck. rewrite check_settle, Hget in Hcheck. split.
      + by destruct (settle_present_normal _ _ _ _ _ _ Hs Hcheck).
      + intros allowed Hone. by eapply settle_normal_oneOf.
    - intros [Hnum Hone]. rewrite (check_present _ _ _ _ Hget Hs).
      destruct rules as [t r d o]; simpl in *. unfold_checks; simpl.
      destruct t; simpl in *.
      + destruct o as [allowed|]; [|done]. by rewrite (Hone allowed eq_refl).
      + rewrite (Hnum eq_refl). simpl.
        destruct o as [allowed|]; [|done]. by rewrite (Hone allowed eq_refl).
      + destruct o as [allowed|]; [|done]. by rewrite (Hone allowed eq_refl). }
  split; [exact Hiff|]. split.
  - destruct (check key rules p) as [[v|code] p1] eqn:Hcheck; [|done].
    intros _. pose proof Hcheck as Hc.
    rewrite (check_normal _ _ _ _ _ Hcheck) in Hc.
    rewrite check_settle, Hget in Hc.
    destruct (settle_present_normal _ _ _ _ _ _ Hs Hc) as [-> _].
    by rewrite (check_normal _ _ _ _ _ Hcheck).
  - by intros ->.
Qed.

Lemma present_accepted_iff_witness :
  completes (fst (check "NODE_ENV" NODE_ENV_rule
                    (start [("NODE_ENV", "production")]))) = true <->
  check "NODE_ENV" NODE_ENV_rule (start [("NODE_ENV", "production")])
  = (Normal (VString "production"), start [("NODE_ENV", "production")]).
Proof.
  apply (present_accepted_iff "NODE_ENV" NODE_ENV_rule "production"
           (start [("NODE_ENV", "production")])).
  - vm_compute. reflexivity.
  - discriminate.
Defined.

(** ** Instances *)

Lemma guard_returns_iff_accepted_witness :
  exists result,
    guard quick_start (start [("PORT", "3000"); ("NODE_ENV", "test")])
    = (Normal result,
       emit (map loaded (for_in quick_start))
         (start [("PORT", "3000"); ("NODE_ENV", "test")])).
Proof.
  apply (proj1 (guard_returns_iff_accepted quick_start
                  (start [("PORT", "3000"); ("NODE_ENV", "test")]))).
  intros k [<-|[<-|[<-|[]]]]; vm_compute; reflexivity.
Defined.

Lemma missing_required_iff_witness :
  check "PORT" PORT_rule (start [("PORT", "")])
  = (Exit 1,
     emit [console_error (red (MissingRequired "PORT"))] (start [("PORT", "")])).
Proof.
  apply (proj2 (missing_required_iff "PORT" PORT_rule (start [("PORT", "")]))).
  split; [vm_compute; reflexivity|]. split; reflexivity.
Defined.

Lemma for_in_indices_first_witness :
  exists indices,
    for_in [("b", PORT_rule); ("10", PORT_rule); ("a", PORT_rule);
            ("2", PORT_rule)]
    = indices ++ ["b"; "a"] /\
    StronglySorted index_before indices /\
    forall k, In k indices <->
              In k ["b"; "10"; "a"; "2"] /\ is_array_index k = true.
Proof.
  exact (for_in_indices_first
           [("b", PORT_rule); ("10", PORT_rule); ("a", PORT_rule);
            ("2", PORT_rule)]).
Defined.
